(** * PointerEffect: click/swipe classification, point filtering and normals

    A shallow embedding of [src/PointerEffect.ts].  The controller keeps a
    click flag and an array of filtered points; every [hammer.input] event
    is appended to the current session and then processed by
    [_onSessionUpdate].

    JavaScript numbers are IEEE 754 binary64 values, embedded as Rocq's
    primitive floats, so [<?], [-], [*], [/] and [sqrt] below are the
    operations the program performs.  A thrown [TypeError] (reading a
    property of [null] or [undefined]) is the [None] of the option monad. *)

From Stdlib Require Import ZArith Lia Bool.
From Stdlib Require Import Floats.
From stdpp Require Import base option list.
From Stdlib Require Strings.String.
Import String.StringSyntax.
Delimit Scope string_scope with string.

Open Scope float_scope.

(** ** Arrays

    [a[i]] for a possibly negative index: out of range reads yield
    [undefined]. *)
Definition js_index {A : Type} (a : list A) (i : Z) : option A :=
  if (i <? 0)%Z then None else a !! Z.to_nat i.

(** [a[i] = v], and a field assignment on the object at [a[i]], for an
    index that is in range: the source only ever writes the last element of
    a non-empty array. *)
Definition js_store {A : Type} (a : list A) (i : Z) (v : A) : list A :=
  if (i <? 0)%Z then a else <[Z.to_nat i := v]> a.

Definition js_length {A : Type} (a : list A) : Z := Z.of_nat (length a).

(** ** BABYLON.Vector2

    The three methods of the rendering library's vector class that the
    effect calls, as Babylon.js defines them: [length] is
    [Math.sqrt(x * x + y * y)], and [normalize] returns the vector
    untouched when that length is [0] and scales both coordinates by
    [1.0 / len] otherwise. *)
Module Vector2.

Record t : Type := mk { x : float; y : float }.

Definition length (v : t) : float := sqrt (x v * x v + y v * y v).

Definition normalize (v : t) : t :=
  let len := length v in
  if len =? 0 then v
  else
    let num := 1 / len in
    mk (x v * num) (y v * num).

Definition set (_ : t) (x' y' : float) : t := mk x' y'.

End Vector2.

(** ** Hammer input events *)
Module Point.
Record t : Type := mk { x : float; y : float }.
End Point.

Module HammerInput.
Record t : Type := mk { center : Point.t; isFirst : bool; isFinal : bool }.
End HammerInput.

(** ** PointerSession

    The class is imported from [@/PointerSession] and is not among the
    sources; [PointerEffect.ts] reads its [inputData], [traveledDistance]
    and [isEnded] and calls its constructor and [addInputPoint]. *)
Module PointerSession.

Record t : Type := mk
  { inputData : list HammerInput.t;
    traveledDistance : float;
    isEnded : bool }.

(** Modelled from the spec: [new PointerSession()], a session with no
    sample, no traveled distance, not ended. *)
Definition create : t := mk [] 0 false.

(** Modelled from the spec: the Euclidean distance between the centers of
    two samples. *)
Definition distance (p q : Point.t) : float :=
  let dx := Point.x q - Point.x p in
  let dy := Point.y q - Point.y p in
  sqrt (dx * dx + dy * dy).

(** Modelled from the spec: [addInputPoint] appends the raw sample, adds to
    the traveled distance the Euclidean distance between the new sample's
    center and the previous sample's center (zero for the very first
    sample), and is a no-op once the session has ended.  The session is
    marked ended on the final event; the handler in [PointerEffect.ts]
    calls nothing else on the session, so the flag is raised here. *)
Definition addInputPoint (e : HammerInput.t) (s : t) : t :=
  if isEnded s then s
  else
    let step :=
      match last (inputData s) with
      | Some prev => distance (HammerInput.center prev) (HammerInput.center e)
      | None => 0
      end in
    mk (inputData s ++ [e]) (traveledDistance s + step)
       (HammerInput.isFinal e).

End PointerSession.

(** ** Filtered points: the object literal built at lines 194-203 *)
Module FilteredPoint.

Record t : Type := mk
  { x : float;
    y : float;
    input : HammerInput.t;
    traveledDistance : float;
    distanceToLast : float;
    isStart : bool;
    isEnd : bool;
    normal : Vector2.t }.

(** Field assignments [p.isStart = b], [p.isEnd = b] and the in-place update
    of [p.normal]. *)
Definition set_isStart (b : bool) (p : t) : t :=
  mk (x p) (y p) (input p) (traveledDistance p) (distanceToLast p)
     b (isEnd p) (normal p).

Definition set_isEnd (b : bool) (p : t) : t :=
  mk (x p) (y p) (input p) (traveledDistance p) (distanceToLast p)
     (isStart p) b (normal p).

Definition set_normal (n : Vector2.t) (p : t) : t :=
  mk (x p) (y p) (input p) (traveledDistance p) (distanceToLast p)
     (isStart p) (isEnd p) n.

End FilteredPoint.

(** ** The controller *)
Definition MIN_SWIPE_THRESHOLD : float := 10.
Definition MIN_SWIPE_SEG : float := 50.

Module PointerEffect.

Record t : Type := mk
  { _currentSession : option PointerSession.t;
    _isClick : bool;
    _filteredPoints : list FilteredPoint.t;
    _meshPoints : list (float * float * float);
    _debugIsDirty : bool }.

(** The field initialisers of the class. *)
Definition init : t := mk None false [] [] false.

Definition set_currentSession (s : PointerSession.t) (this : t) : t :=
  mk (Some s) (_isClick this) (_filteredPoints this) (_meshPoints this)
     (_debugIsDirty this).

Definition set_debugIsDirty (b : bool) (this : t) : t :=
  mk (_currentSession this) (_isClick this) (_filteredPoints this)
     (_meshPoints this) b.

Definition _onSessionStart (this : t) : t :=
  mk (_currentSession this) true [] [] (_debugIsDirty this).

(** Lines 192-203: the candidate built from the newest sample. *)
Definition candidate (currentInput : HammerInput.t) (session : PointerSession.t)
  : FilteredPoint.t :=
  FilteredPoint.mk
    (Point.x (HammerInput.center currentInput))
    (Point.y (HammerInput.center currentInput))
    currentInput
    (PointerSession.traveledDistance session)
    0 false true (Vector2.mk 0 0).

(** Lines 218-224: the point the candidate's distance is measured from. *)
Definition lastDetermined (points : list FilteredPoint.t)
    (lastFilteredPoint : FilteredPoint.t) : option FilteredPoint.t :=
  if FilteredPoint.isStart lastFilteredPoint
  then Some lastFilteredPoint
  else js_index points (js_length points - 2).

(** Lines 207-238: the filter.  [None] is the [TypeError] raised by
    [lastDeterminedPoint.traveledDistance] when [lastDeterminedPoint] is
    [null] (the tail has [isEnd] false) or [undefined] (no element before
    the tail). *)
Definition filter_points (filteredPoint : FilteredPoint.t)
    (points : list FilteredPoint.t) : option (list FilteredPoint.t) :=
  if (js_length points =? 0)%Z then
    Some (points ++ [FilteredPoint.set_isStart true filteredPoint])
  else
    match js_index points (js_length points - 1) with
    | None => Some points
    | Some lastFilteredPoint =>
        lastDeterminedPoint ←
          (if FilteredPoint.isEnd lastFilteredPoint
           then lastDetermined points lastFilteredPoint
           else None);
        let distanceDelta :=
          FilteredPoint.traveledDistance filteredPoint
          - FilteredPoint.traveledDistance lastDeterminedPoint in
        if (MIN_SWIPE_SEG <? distanceDelta)
           || FilteredPoint.isStart lastFilteredPoint
        then
          Some (js_store points (js_length points - 1)
                  (FilteredPoint.set_isEnd false lastFilteredPoint)
                ++ [filteredPoint])
        else
          Some (js_store points (js_length points - 1) filteredPoint)
    end.

(** Lines 246-269: the normal of the last point. *)
Definition make_normals (isClick : bool) (points : list FilteredPoint.t)
  : list FilteredPoint.t :=
  if negb isClick then
    match js_index points (js_length points - 1),
          js_index points (js_length points - 2) with
    | Some currentFP, Some lastFP =>
        let currentV :=
          Vector2.normalize
            (Vector2.mk (FilteredPoint.x currentFP - FilteredPoint.x lastFP)
                        (FilteredPoint.y currentFP - FilteredPoint.y lastFP)) in
        let currentFPNormal :=
          Vector2.normalize
            (Vector2.set (FilteredPoint.normal currentFP)
                         (- Vector2.y currentV) (Vector2.x currentV)) in
        js_store points (js_length points - 1)
          (FilteredPoint.set_normal currentFPNormal currentFP)
    | _, _ => points
    end
  else points.

Definition _onSessionUpdate (this : t) : option t :=
  match _currentSession this with
  | None => Some this
  | Some session =>
      let isClick :=
        if MIN_SWIPE_THRESHOLD <? PointerSession.traveledDistance session
        then false else _isClick this in
      let inputDataList := PointerSession.inputData session in
      currentInput ← js_index inputDataList (js_length inputDataList - 1);
      points ← filter_points (candidate currentInput session)
                 (_filteredPoints this);
      Some (mk (Some session) isClick (make_normals isClick points)
               (_meshPoints this) (_debugIsDirty this))
  end.

Definition _onSessionEnd (this : t) : t := this.

(** Lines 57-67 of the [hammer.input] handler registered by [init]: the
    session is replaced when there is none or the event is a first one, the
    event is appended, and the start hook runs for first events only. *)
Definition receive (e : HammerInput.t) (this : t) : t :=
  let session :=
    match _currentSession this with
    | None => PointerSession.create
    | Some s => if HammerInput.isFirst e then PointerSession.create else s
    end in
  let this := set_currentSession (PointerSession.addInputPoint e session) this in
  if HammerInput.isFirst e then _onSessionStart this else this.

(** Lines 57-75: the whole handler. *)
Definition on_hammer_input (e : HammerInput.t) (this : t) : option t :=
  this ← _onSessionUpdate (receive e this);
  let this := if HammerInput.isFinal e then _onSessionEnd this else this in
  Some (set_debugIsDirty true this).

(** A stream of events, delivered in order. *)
Fixpoint run (events : list HammerInput.t) (this : t) : option t :=
  match events with
  | [] => Some this
  | e :: events => this ← on_hammer_input e this; run events this
  end.

End PointerEffect.

Import PointerEffect.

(** * The rest of the class: recognizers, canvases, scene and line mesh

    [PointerEffect.t] above holds the fields the input handler works on.
    The class has four more that [init], [update] and [updateDebugCanvas]
    use; they are kept in [View.t], and a controller is a [View.t] with a
    [PointerEffect.t].  What the methods ask of the browser and of the
    rendering library is recorded as the list of calls they make. *)

(** ** HammerManager

    The manager [new Hammerjs(target, options)] returns, through the two
    operations [init] uses: [get(name)] is the first recognizer whose event
    is [name], or [null]; [recognizer.set({ enable: false })] lowers the
    [enable] option of that recognizer. *)
Module HammerManager.

Record recognizer : Type := mk_recognizer
  { event : String.string; enable : bool }.

Definition t : Type := list recognizer.

Fixpoint get (name : String.string) (manager : t) : option recognizer :=
  match manager with
  | [] => None
  | r :: manager =>
      if String.eqb (event r) name then Some r else get name manager
  end.

(** [get(name).set({ enable: b })], a no-op when there is no such
    recognizer. *)
Fixpoint set_enable (name : String.string) (b : bool) (manager : t) : t :=
  match manager with
  | [] => []
  | r :: manager =>
      if String.eqb (event r) name
      then mk_recognizer (event r) b :: manager
      else r :: set_enable name b manager
  end.

End HammerManager.

Definition defaultHammerRecognizerNames : list String.string :=
  ["pan"; "pinch"; "rotate"; "press"; "swipe"; "tap"]%string.

(** ** Scene and canvases *)
Module Vector3.
Record t : Type := mk { x : float; y : float; z : float }.
End Vector3.

(** A camera, through what [update] asks of it: the point
    [Vector3.TransformCoordinates(v, cmInverse)] returns for a vector [v],
    where [cmInverse] is the inverse of the camera's view matrix times its
    projection matrix. *)
Module Camera.
Record t : Type := mk { unproject : Vector3.t -> Vector3.t }.
End Camera.

(** Modelled from the spec: [BabylonController], imported from [@/Babylon]
    and not among the sources, through the members [update] reads: the
    [isInited] flag and the camera of the scene. *)
Module BabylonController.
Record t : Type := mk { isInited : bool; camera : Camera.t }.
End BabylonController.

(** A canvas element: its layout size, its bitmap size, and whether
    [getContext('2d')] returns a context. *)
Module HTMLCanvasElement.
Record t : Type := mk
  { clientWidth : float;
    clientHeight : float;
    width : float;
    height : float;
    context2d : bool }.
End HTMLCanvasElement.

Module LinesMesh.
Record t : Type := mk
  { name : String.string;
    points : list Vector3.t;
    color : float * float * float }.
End LinesMesh.

(** The calls made on the scene and on the 2D context; an assignment to
    [ctx.fillStyle] or [ctx.strokeStyle] counts as a call. *)
Inductive Call : Type :=
| dispose (line : LinesMesh.t)
| CreateLines (line : LinesMesh.t)
| clearRect (x y w h : float)
| save
| restore
| fillStyle (style : String.string)
| strokeStyle (style : String.string)
| fillRect (x y w h : float)
| beginPath
| moveTo (x y : float)
| lineTo (x y : float)
| stroke.

Module View.

Record t : Type := mk
  { _hammer : option HammerManager.t;
    _target : option HTMLCanvasElement.t;
    _babylon : option BabylonController.t;
    _debugCanvas : option HTMLCanvasElement.t;
    _line : option LinesMesh.t }.

(** The field initialisers of the class. *)
Definition empty : t := mk None None None None None.

Definition set_line (line : LinesMesh.t) (view : t) : t :=
  mk (_hammer view) (_target view) (_babylon view) (_debugCanvas view)
     (Some line).

End View.

Module Controller.

Import View.

Definition t : Type := (View.t * PointerEffect.t)%type.

(** The object [new PointerEffect()] exports. *)
Definition create : t := (View.empty, PointerEffect.init).

(** Lines 49-55: every default recognizer the manager has is turned off. *)
Definition disable_defaults (hammer : HammerManager.t) : HammerManager.t :=
  foldl (fun manager name => HammerManager.set_enable name false manager)
        hammer defaultHammerRecognizerNames.

(** Lines 34-76.  [hammer] is the manager the constructor call of line 43
    returns; the handler that [init] registers is [on_hammer_input]. *)
Definition init (hammer : HammerManager.t) (canvas debugCanvas : HTMLCanvasElement.t)
    (babylon : BabylonController.t) (self : t) : t :=
  (View.mk (Some (disable_defaults hammer)) (Some canvas) (Some babylon)
     (Some debugCanvas) (_line (fst self)),
   snd self).

(** Lines 94-102: a filtered point in the scene. *)
Definition to_scene (camera : Camera.t) (target : HTMLCanvasElement.t)
    (input : FilteredPoint.t) : Vector3.t :=
  let v :=
    Vector3.mk
      ((FilteredPoint.x input * 2) / HTMLCanvasElement.clientWidth target - 1)
      (((- 1) * (FilteredPoint.y input * 2))
       / HTMLCanvasElement.clientHeight target + 1)
      0 in
  let p := Camera.unproject camera v in
  Vector3.mk (Vector3.x p) (Vector3.y p) 0.

(** Lines 142-157: the square and the normal of one filtered point. *)
Definition draw_point (input : FilteredPoint.t) : list Call :=
  let dotSize := 3 in
  let normal := FilteredPoint.normal input in
  [fillRect (FilteredPoint.x input - dotSize / 2)
            (FilteredPoint.y input - dotSize / 2) dotSize dotSize;
   beginPath;
   moveTo (FilteredPoint.x input) (FilteredPoint.y input);
   lineTo (FilteredPoint.x input + Vector2.x normal * 10)
          (FilteredPoint.y input + Vector2.y normal * 10);
   stroke].

(** Lines 116-165.  The method returns the controller and the calls it
    made on the 2D context. *)
Definition updateDebugCanvas (self : t) : t * list Call :=
  let '(view, this) := self in
  match _debugCanvas view with
  | None => (self, [])
  | Some canvas =>
      if negb (_debugIsDirty this) then (self, [])
      else
        let this := set_debugIsDirty false this in
        if negb (HTMLCanvasElement.context2d canvas) then ((view, this), [])
        else
          ((view, this),
           clearRect 0 0 (HTMLCanvasElement.width canvas)
                         (HTMLCanvasElement.height canvas)
           :: match _currentSession this with
              | None => []
              | Some session =>
                  [save;
                   fillStyle (if PointerSession.isEnded session
                              then "#00FFFF" else "#FF0000")%string;
                   strokeStyle "red"%string]
                  ++ flat_map draw_point (_filteredPoints this)
                  ++ [restore; save; restore]
              end)
  end.

(** Lines 78-114.  [None] is the [TypeError] of [target.clientWidth] when
    there is a point to transform and no target canvas. *)
Definition update (self : t) : option (t * list Call) :=
  let '(view, this) := self in
  match _babylon view with
  | None => Some (self, [])
  | Some babylon =>
      if negb (BabylonController.isInited babylon) || negb (_debugIsDirty this)
      then Some (self, [])
      else
        points ←
          match _currentSession this with
          | None => Some []
          | Some _ =>
              let camera := BabylonController.camera babylon in
              mapM (fun input =>
                      target ← _target view; Some (to_scene camera target input))
                   (_filteredPoints this)
          end;
        let disposed :=
          match _line view with
          | Some line => [dispose line]
          | None => []
          end in
        let line := LinesMesh.mk "debugLine"%string points (0.5, 0.5, 0.5) in
        let '(self, drawn) := updateDebugCanvas (View.set_line line view, this) in
        Some (self, disposed ++ [CreateLines line] ++ drawn)
  end.

(** What happens to a controller: an input event reaches the handler, the
    frame loop calls [update], somebody calls [updateDebugCanvas], or the
    scene of the shared [BabylonController] finishes initialising. *)
Inductive Action : Type :=
| hammer_input (e : HammerInput.t)
| frame
| debug_frame
| scene_ready.

Definition step (action : Action) (self : t) : option (t * list Call) :=
  match action with
  | hammer_input e =>
      this ← on_hammer_input e (snd self); Some ((fst self, this), [])
  | frame => update self
  | debug_frame => Some (updateDebugCanvas self)
  | scene_ready =>
      let view := fst self in
      Some ((View.mk (_hammer view) (_target view)
               (b ← _babylon view;
                Some (BabylonController.mk true (BabylonController.camera b)))
               (_debugCanvas view) (_line view),
             snd self), [])
  end.

(** A run of actions, with all the calls made, in order. *)
Fixpoint play (actions : list Action) (self : t) : option (t * list Call) :=
  match actions with
  | [] => Some (self, [])
  | action :: actions =>
      '(self, calls) ← step action self;
      '(self, calls') ← play actions self;
      Some (self, calls ++ calls')
  end.

End Controller.

(** * Vocabulary of the properties

    The observations, sample gestures and invariants the lemmas are stated
    with.  [classify], [difference], [direction], [perpendicular] and
    [segment_normal] name sub-expressions of [_onSessionUpdate]. *)

(** ** Observations *)

Definition position (p : FilteredPoint.t) : Point.t :=
  Point.mk (FilteredPoint.x p) (FilteredPoint.y p).

Definition positions (points : list FilteredPoint.t) : list (float * float) :=
  map (fun p => (FilteredPoint.x p, FilteredPoint.y p)) points.

Definition flags (points : list FilteredPoint.t) : list (bool * bool) :=
  map (fun p => (FilteredPoint.isStart p, FilteredPoint.isEnd p)) points.

Definition normals (points : list FilteredPoint.t) : list Vector2.t :=
  map FilteredPoint.normal points.

Definition count (f : FilteredPoint.t -> bool) (a : list FilteredPoint.t) : nat :=
  length (List.filter f a).

(** The click flag after the threshold test of lines 180-185. *)
Definition classify (session : PointerSession.t) (isClick : bool) : bool :=
  if MIN_SWIPE_THRESHOLD <? PointerSession.traveledDistance session
  then false else isClick.

(** The raw difference of the last segment, its direction and the
    counter-clockwise perpendicular, as lines 252-259 compute them. *)
Definition difference (lastFP currentFP : FilteredPoint.t) : Vector2.t :=
  Vector2.mk (FilteredPoint.x currentFP - FilteredPoint.x lastFP)
             (FilteredPoint.y currentFP - FilteredPoint.y lastFP).

Definition direction (lastFP currentFP : FilteredPoint.t) : Vector2.t :=
  Vector2.normalize (difference lastFP currentFP).

Definition perpendicular (v : Vector2.t) : Vector2.t :=
  Vector2.mk (- Vector2.y v) (Vector2.x v).

Definition segment_normal (lastFP currentFP : FilteredPoint.t) : Vector2.t :=
  Vector2.normalize (perpendicular (direction lastFP currentFP)).

(** ** Gestures *)

Definition sample (x y : float) (first final : bool) : HammerInput.t :=
  HammerInput.mk (Point.mk x y) first final.

Definition scenario_swipe : list HammerInput.t :=
  [sample 0 0 true false; sample 5 0 false false;
   sample 60 0 false false; sample 65 0 false true].

Definition scenario_click : list HammerInput.t :=
  [sample 0 0 true false; sample 3 0 false true].

(** A gesture that goes out and comes back to its start, and a last move
    by [2^-600]: it joins two different points whose squared distance
    underflows to [0]. *)
Definition back_to_start : list HammerInput.t :=
  [sample 0 0 true false; sample 20 0 false false; sample 0 0 false false].

Definition tiny_step : HammerInput.t := sample 0x1p-600 0 false true.

(** A state is reachable when some stream of events leads to it from the
    initial one. *)
Definition reachable (this : PointerEffect.t) : Prop :=
  exists events, run events init = Some this.

(** The state a stream of events leaves, for use as a concrete input. *)
Definition after (events : list HammerInput.t) : PointerEffect.t :=
  default init (run events init).

(** The session that receives an event appends it unless it has ended. *)
Definition appended (e : HammerInput.t) (this : PointerEffect.t) : Prop :=
  HammerInput.isFirst e = true \/
  match _currentSession this with
  | None => True
  | Some s => PointerSession.isEnded s = false
  end.

(** ** The shape of the filtered points

    Either the anchor alone, which is then both start and end, or the
    anchor, locked-in interior points and a provisional tail.  [first] and
    [latest] are the positions of the first and of the most recent sample
    of the session. *)
Definition interior (p : FilteredPoint.t) : Prop :=
  FilteredPoint.isStart p = false /\ FilteredPoint.isEnd p = false.

Inductive polyline (first latest : Point.t) : list FilteredPoint.t -> Prop :=
| polyline_anchor a :
    FilteredPoint.isStart a = true -> FilteredPoint.isEnd a = true ->
    position a = first -> position a = latest ->
    polyline first latest [a]
| polyline_more a mid t :
    FilteredPoint.isStart a = true -> FilteredPoint.isEnd a = false ->
    position a = first ->
    Forall interior mid ->
    FilteredPoint.isStart t = false -> FilteredPoint.isEnd t = true ->
    position t = latest ->
    polyline first latest (a :: mid ++ [t]).

(** What every state between two events satisfies: before the first event
    there is no session and no point; afterwards the points form a polyline
    from the session's first sample to its latest one. *)
Definition consistent (this : PointerEffect.t) : Prop :=
  match _currentSession this with
  | None => _filteredPoints this = []
  | Some s =>
      exists first latest,
        head (PointerSession.inputData s) = Some first /\
        last (PointerSession.inputData s) = Some latest /\
        polyline (HammerInput.center first) (HammerInput.center latest)
          (_filteredPoints this)
  end.

(** The flags of a sequence of filtered points whose latest sample is at
    [latest]: one point at least, one start, one end, and the end is the
    last element, at the latest sample's position. *)
Definition flagged (latest : Point.t) (a : list FilteredPoint.t) : Prop :=
  (1 <= length a)%nat /\
  count FilteredPoint.isStart a = 1%nat /\
  count FilteredPoint.isEnd a = 1%nat /\
  exists tail,
    last a = Some tail /\ FilteredPoint.isEnd tail = true /\
    position tail = latest.

(** The same point, with at most its [isEnd] flag cleared: the only way a
    later update touches the anchor. *)
Definition same_anchor (a a' : FilteredPoint.t) : Prop :=
  a' = a \/ a' = FilteredPoint.set_isEnd false a.

(** The states on which the update has a session and does not throw: the
    session holds a sample, and a tail, when there is one, carries [isEnd]
    and has a point to measure the candidate from. *)
Definition ready (this : PointerEffect.t) : bool :=
  match _currentSession this with
  | None => false
  | Some s =>
      match last (PointerSession.inputData s) with
      | None => false
      | Some _ =>
          match last (_filteredPoints this) with
          | None => true
          | Some t =>
              FilteredPoint.isEnd t
              && match lastDetermined (_filteredPoints this) t with
                 | Some _ => true
                 | None => false
                 end
          end
      end
  end.

(** The same condition, spelled out for a given session. *)
Definition updatable (this : PointerEffect.t) (s : PointerSession.t) : Prop :=
  _currentSession this = Some s /\
  PointerSession.inputData s <> [] /\
  forall a t,
    _filteredPoints this = a ++ [t] ->
    FilteredPoint.isEnd t = true /\ is_Some (lastDetermined (a ++ [t]) t).

(** ** Further observations *)

(** The points before the tail: the locked-in part of the array. *)
Definition locked (a : list FilteredPoint.t) : list FilteredPoint.t :=
  take (length a - 1) a.

Definition zero_normal (p : FilteredPoint.t) : Prop :=
  FilteredPoint.normal p = Vector2.mk 0 0.

(** A filtered point that records a sample of the session [s]: it sits at
    the center of the sample it refers to, that sample is one of the
    session's, and its [distanceToLast] is the [0] it was built with. *)
Definition records (s : PointerSession.t) (p : FilteredPoint.t) : Prop :=
  position p = HammerInput.center (FilteredPoint.input p) /\
  FilteredPoint.input p ∈ PointerSession.inputData s /\
  FilteredPoint.distanceToLast p = 0.

(** The filtered point a first event leaves. *)
Definition anchor_of (e : HammerInput.t) : FilteredPoint.t :=
  FilteredPoint.mk
    (Point.x (HammerInput.center e)) (Point.y (HammerInput.center e))
    e 0 0 true true (Vector2.mk 0 0).

(** ** Observations of the scene and of the canvas *)

Definition canvas_call (c : Call) : Prop :=
  match c with
  | dispose _ | CreateLines _ => False
  | _ => True
  end.

(** The line meshes a list of calls creates, and the squares it fills. *)
Definition created (calls : list Call) : list LinesMesh.t :=
  omap (fun c => match c with CreateLines line => Some line | _ => None end)
       calls.

Definition squares (calls : list Call) : list (float * float * float * float) :=
  omap (fun c => match c with fillRect x y w h => Some (x, y, w, h) | _ => None end)
       calls.

(** [one_line held calls held']: with the line [held] alive before them,
    the calls create a line only when none is alive, dispose only of the
    line that is alive, and leave [held'] alive. *)
Inductive one_line :
    option LinesMesh.t -> list Call -> option LinesMesh.t -> Prop :=
| one_line_nil held : one_line held [] held
| one_line_create line calls held' :
    one_line (Some line) calls held' ->
    one_line None (CreateLines line :: calls) held'
| one_line_dispose line calls held' :
    one_line None calls held' ->
    one_line (Some line) (dispose line :: calls) held'
| one_line_canvas held c calls held' :
    canvas_call c ->
    one_line held calls held' ->
    one_line held (c :: calls) held'.

(** A line mesh as [update] builds them. *)
Definition debug_line (vertices : nat) (line : LinesMesh.t) : Prop :=
  LinesMesh.name line = "debugLine"%string /\
  LinesMesh.color line = (0.5, 0.5, 0.5) /\
  length (LinesMesh.points line) = vertices /\
  Forall (fun v => Vector3.z v = 0) (LinesMesh.points line).

(** The controllers one gets by initialising the exported object and then
    letting things happen to it. *)
Definition playable (self : Controller.t) : Prop :=
  exists hammer canvas debugCanvas babylon actions calls,
    Controller.play actions (Controller.init hammer canvas debugCanvas babylon
                    Controller.create)
    = Some (self, calls).

(** What [init] establishes for good. *)
Definition installed (self : Controller.t) : Prop :=
  is_Some (View._target (fst self)) /\
  is_Some (View._debugCanvas (fst self)) /\
  is_Some (View._babylon (fst self)) /\
  consistent (snd self) /\
  (_debugIsDirty (snd self) = true -> is_Some (_currentSession (snd self))).

(** The calls that dispose of the line a view holds. *)
Definition dispose_held (view : View.t) : list Call :=
  match View._line view with
  | Some line => [dispose line]
  | None => []
  end.

(** A controller to try things on: a 800 by 600 canvas, a debug canvas of
    the same size, a scene that is ready and a camera that leaves vectors
    where they are. *)
Definition demo_canvas : HTMLCanvasElement.t :=
  HTMLCanvasElement.mk 800 600 800 600 true.

Definition demo : Controller.t :=
  Controller.init [] demo_canvas demo_canvas
    (BabylonController.mk true (Camera.mk (fun v => v))) Controller.create.

(** The square [updateDebugCanvas] fills for a filtered point. *)
Definition square (p : FilteredPoint.t) : float * float * float * float :=
  (FilteredPoint.x p - 1.5, FilteredPoint.y p - 1.5, 3, 3).

Definition is_default (name : String.string) : bool :=
  existsb (String.eqb name) defaultHammerRecognizerNames.

(** ** Pixel coordinates

    Hammer rounds the center of an event to whole pixels.  [pixel n] is the
    number [n], and [screen] bounds the coordinates considered. *)
Fixpoint pixel (n : nat) : float :=
  match n with
  | O => 0
  | S n => pixel n + 1
  end.

Definition screen : nat := 4096.

Definition on_pixels (p : FilteredPoint.t) : Prop :=
  exists i j,
    (i <= screen)%nat /\ (j <= screen)%nat /\
    FilteredPoint.x p = pixel i /\ FilteredPoint.y p = pixel j.

(** Unit length, to the last place: the computed length is [1] or one of
    the two numbers next to it. *)
Definition unit_length (v : Vector2.t) : bool :=
  (0x1.fffffffffffffp-1 <=? Vector2.length v)
  && (Vector2.length v <=? 0x1.0000000000001p+0).

(** The normal lines 252-259 compute from the raw difference. *)
Definition normal_of (d : Vector2.t) : Vector2.t :=
  Vector2.normalize (perpendicular (Vector2.normalize d)).

Definition unit_ok (dx dy : float) : bool :=
  unit_length (normal_of (Vector2.mk dx dy)).

(** Checks by enumeration: [upto k x f] is [f] at [x], [x + 1], ...,
    [x + k]. *)
Fixpoint upto (k : nat) (x : float) (f : float -> bool) : bool :=
  f x && match k with
         | O => true
         | S k => upto k (x + 1) f
         end.

(** [unit_rows k n dx] checks the differences [(dx + i, dy)] for [i] from
    [0] to [k] and [dy] from [0] to [n + i]; [unit_grid n] is every
    difference [(dx, dy)] of whole numbers with [1 <= dx <= n] and
    [0 <= dy <= dx]. *)
Fixpoint unit_rows (k n : nat) (dx : float) : bool :=
  upto n 0 (fun dy => unit_ok dx dy)
  && match k with
     | O => true
     | S k => unit_rows k (S n) (dx + 1)
     end.

Definition unit_grid (n : nat) : bool :=
  match n with
  | O => true
  | S m => unit_rows m 1 1
  end.

(** Subtraction is exact on whole numbers.  [sub_cols k xb xa xd], called
    with [xa = xb + xd] and [xd] at least [1], checks [xa - xb = xd] and
    [xb - xa = - xd] there and at the [k] next values of [xa];
    [sub_rows k xb] checks every pair taken from [xb], [xb + 1], ...,
    [xb + k]. *)
Fixpoint sub_cols (k : nat) (xb xa xd : float) : bool :=
  (xa - xb =? xd) && (- (xb - xa) =? xd) && (0 <? xd)
  && match k with
     | O => true
     | S k => sub_cols k xb (xa + 1) (xd + 1)
     end.

Fixpoint sub_rows (k : nat) (xb : float) : bool :=
  PrimFloat.Leibniz.eqb (xb - xb) 0
  && match k with
     | O => true
     | S k => sub_cols k xb (xb + 1) 1 && sub_rows k (xb + 1)
     end.

(** * Arrays read and written at their end *)
Section Arrays.
Context {A : Type}.
Implicit Types (a : list A) (v w : A).

Lemma js_length_app_one a v : js_length (a ++ [v]) = (js_length a + 1)%Z.
Proof. unfold js_length. rewrite length_app. simpl. lia. Qed.

Lemma js_index_last a v :
  js_index (a ++ [v]) (js_length (a ++ [v]) - 1) = Some v.
Proof.
  rewrite js_length_app_one. unfold js_index, js_length.
  destruct (Z.ltb_spec (Z.of_nat (length a) + 1 - 1) 0) as [H|_]; [lia|].
  replace (Z.to_nat (Z.of_nat (length a) + 1 - 1)) with (length a + 0)%nat by lia.
  rewrite lookup_app_r by lia.
  now replace (length a + 0 - length a)%nat with 0%nat by lia.
Qed.

Lemma js_index_before_last a v :
  js_index (a ++ [v]) (js_length (a ++ [v]) - 2) = last a.
Proof.
  rewrite js_length_app_one. unfold js_index, js_length.
  destruct a as [|u a' _] using rev_ind; [reflexivity|].
  rewrite length_app, last_snoc. simpl.
  destruct (Z.ltb_spec (Z.of_nat (length a' + 1) + 1 - 2) 0) as [H|_]; [lia|].
  replace (Z.to_nat (Z.of_nat (length a' + 1) + 1 - 2)) with (length a' + 0)%nat by lia.
  rewrite <- (assoc_L (++)). rewrite lookup_app_r by lia.
  now replace (length a' + 0 - length a')%nat with 0%nat by lia.
Qed.

Lemma js_store_last a v w :
  js_store (a ++ [v]) (js_length (a ++ [v]) - 1) w = a ++ [w].
Proof.
  rewrite js_length_app_one. unfold js_store, js_length.
  destruct (Z.ltb_spec (Z.of_nat (length a) + 1 - 1) 0) as [H|_]; [lia|].
  replace (Z.to_nat (Z.of_nat (length a) + 1 - 1)) with (length a + 0)%nat by lia.
  now rewrite insert_app_r.
Qed.

Lemma js_index_empty (i : Z) : js_index (@nil A) i = None.
Proof. unfold js_index. now destruct (i <? 0)%Z. Qed.

(** Every array is empty or ends in a last element. *)
Lemma snoc_cases a : a = [] \/ exists a' v, a = a' ++ [v].
Proof. destruct a as [|v a' _] using rev_ind; eauto. Qed.

Lemma last_snoc_inv a v : last a = Some v -> exists a', a = a' ++ [v].
Proof.
  destruct (snoc_cases a) as [->|(a' & u & ->)]; [discriminate|].
  rewrite last_snoc. intros [= ->]. eauto.
Qed.

End Arrays.

(** * The filter and the normals on an array with a known tail *)

Section Equations.
Implicit Types (c p t : FilteredPoint.t) (a : list FilteredPoint.t).

Lemma filter_points_nil c :
  filter_points c [] = Some [FilteredPoint.set_isStart true c].
Proof. reflexivity. Qed.

Lemma lastDetermined_snoc a t :
  lastDetermined (a ++ [t]) t =
  if FilteredPoint.isStart t then Some t else last a.
Proof. unfold lastDetermined. now rewrite js_index_before_last. Qed.

Lemma filter_points_snoc c a t :
  filter_points c (a ++ [t]) =
  lastDeterminedPoint ←
    (if FilteredPoint.isEnd t then lastDetermined (a ++ [t]) t else None);
  if (MIN_SWIPE_SEG <?
        FilteredPoint.traveledDistance c
        - FilteredPoint.traveledDistance lastDeterminedPoint)
     || FilteredPoint.isStart t
  then Some (a ++ [FilteredPoint.set_isEnd false t; c])
  else Some (a ++ [c]).
Proof.
  unfold filter_points.
  destruct (Z.eqb_spec (js_length (a ++ [t])) 0) as [H|_].
  { rewrite js_length_app_one in H. unfold js_length in H. lia. }
  rewrite js_index_last, !js_store_last.
  destruct (FilteredPoint.isEnd t); [|reflexivity].
  destruct (lastDetermined (a ++ [t]) t) as [ld|]; [|reflexivity].
  simpl. now rewrite <- (assoc_L (++)).
Qed.

Lemma make_normals_click a : make_normals true a = a.
Proof. reflexivity. Qed.

Lemma make_normals_nil b : make_normals b [] = [].
Proof. now destruct b. Qed.

Lemma make_normals_one b t : make_normals b [t] = [t].
Proof. now destruct b. Qed.

Lemma make_normals_swipe a p t :
  make_normals false (a ++ [p; t]) =
  a ++ [p; FilteredPoint.set_normal (segment_normal p t) t].
Proof.
  unfold make_normals. simpl negb. cbv iota.
  replace (a ++ [p; t]) with ((a ++ [p]) ++ [t]) by now rewrite <- (assoc_L (++)).
  rewrite js_index_last, js_index_before_last, last_snoc, js_store_last.
  now rewrite <- (assoc_L (++)).
Qed.

(** Whatever the flag, the normals pass only rewrites the normal of the
    last element. *)
Lemma make_normals_snoc b a t :
  exists n, make_normals b (a ++ [t]) = a ++ [FilteredPoint.set_normal n t].
Proof.
  destruct b.
  - exists (FilteredPoint.normal t). rewrite make_normals_click. now destruct t.
  - destruct (snoc_cases a) as [->|(a' & p & ->)].
    + exists (FilteredPoint.normal t). simpl. rewrite make_normals_one. now destruct t.
    + exists (segment_normal p t). rewrite <- (assoc_L (++)). simpl.
      rewrite make_normals_swipe. now rewrite <- (assoc_L (++)).
Qed.

End Equations.

(** * The state the update runs on *)

Lemma js_index_end {A : Type} (a : list A) :
  js_index a (js_length a - 1) = last a.
Proof.
  destruct (snoc_cases a) as [->|(a' & v & ->)]; [reflexivity|].
  now rewrite js_index_last, last_snoc.
Qed.

Lemma update_eq this session currentInput :
  _currentSession this = Some session ->
  last (PointerSession.inputData session) = Some currentInput ->
  _onSessionUpdate this =
  points ← filter_points (candidate currentInput session) (_filteredPoints this);
  Some (PointerEffect.mk (Some session)
          (classify session (_isClick this))
          (make_normals (classify session (_isClick this)) points)
          (_meshPoints this) (_debugIsDirty this)).
Proof.
  intros Hs Hl. unfold _onSessionUpdate. rewrite Hs, js_index_end, Hl.
  reflexivity.
Qed.

Section Polyline.
Implicit Types (c p t : FilteredPoint.t) (a : list FilteredPoint.t).

Lemma position_set_isEnd b p : position (FilteredPoint.set_isEnd b p) = position p.
Proof. reflexivity. Qed.

Lemma position_set_normal n p : position (FilteredPoint.set_normal n p) = position p.
Proof. reflexivity. Qed.

Lemma position_candidate e s : position (candidate e s) = HammerInput.center e.
Proof. unfold position, candidate. simpl. now destruct (HammerInput.center e). Qed.

(** The filter on a polyline: it never throws, it keeps the anchor, and it
    ends in the candidate. *)
Lemma filter_polyline first latest c a :
  polyline first latest a ->
  FilteredPoint.isStart c = false -> FilteredPoint.isEnd c = true ->
  exists a', filter_points c a = Some a' /\ polyline first (position c) a'.
Proof.
  intros Hp Hs He. destruct Hp as [x Hxs Hxe Hxf Hxl | x mid t Hxs Hxe Hxf Hmid Hts Hte Htl].
  - change [x] with ([] ++ [x]). rewrite filter_points_snoc, lastDetermined_snoc.
    rewrite Hxe, Hxs. simpl. rewrite orb_true_r.
    eexists; split; [reflexivity|].
    apply (polyline_more _ _ (FilteredPoint.set_isEnd false x) [] c); auto.
  - change (x :: mid ++ [t]) with ((x :: mid) ++ [t]).
    rewrite filter_points_snoc, lastDetermined_snoc. rewrite Hte, Hts.
    destruct (last (x :: mid)) as [ld|] eqn:Hld.
    2:{ apply last_None in Hld. discriminate. }
    simpl. rewrite orb_false_r.
    destruct (MIN_SWIPE_SEG <? _).
    + eexists; split; [reflexivity|].
      replace (x :: mid ++ [FilteredPoint.set_isEnd false t; c])
        with (x :: (mid ++ [FilteredPoint.set_isEnd false t]) ++ [c])
        by now rewrite <- (assoc_L (++)).
      apply polyline_more; auto.
      apply Forall_app; split; [assumption|].
      constructor; [|constructor]. now split.
    + eexists; split; [reflexivity|]. now apply polyline_more.
Qed.

Lemma make_normals_polyline b first latest a :
  polyline first latest a -> polyline first latest (make_normals b a).
Proof.
  intros Hp. destruct Hp as [x Hxs Hxe Hxf Hxl | x mid t Hxs Hxe Hxf Hmid Hts Hte Htl].
  - rewrite make_normals_one. now constructor.
  - change (x :: mid ++ [t]) with ((x :: mid) ++ [t]).
    destruct (make_normals_snoc b (x :: mid) t) as [n ->]. simpl.
    now apply polyline_more.
Qed.

End Polyline.

(** * One event *)
Section Handler.
Implicit Types (e : HammerInput.t) (s : PointerSession.t) (this : PointerEffect.t).

Lemma addInputPoint_create e :
  PointerSession.addInputPoint e PointerSession.create =
  PointerSession.mk [e] (0 + 0) (HammerInput.isFinal e).
Proof. reflexivity. Qed.

Lemma addInputPoint_head e s first :
  head (PointerSession.inputData s) = Some first ->
  head (PointerSession.inputData (PointerSession.addInputPoint e s)) = Some first.
Proof.
  intros H. unfold PointerSession.addInputPoint.
  destruct (PointerSession.isEnded s); [assumption|]. simpl.
  destruct (PointerSession.inputData s); [discriminate|assumption].
Qed.

Lemma addInputPoint_last e s :
  last (PointerSession.inputData (PointerSession.addInputPoint e s)) =
  if PointerSession.isEnded s then last (PointerSession.inputData s) else Some e.
Proof.
  unfold PointerSession.addInputPoint.
  destruct (PointerSession.isEnded s); [reflexivity|]. simpl. apply last_snoc.
Qed.

Lemma receive_first e this :
  HammerInput.isFirst e = true ->
  receive e this =
  PointerEffect.mk (Some (PointerSession.addInputPoint e PointerSession.create))
    true [] [] (_debugIsDirty this).
Proof. intros H. unfold receive. rewrite H. now destruct (_currentSession this). Qed.

Lemma receive_later e this :
  HammerInput.isFirst e = false ->
  receive e this =
  set_currentSession
    (PointerSession.addInputPoint e
       (default PointerSession.create (_currentSession this))) this.
Proof. intros H. unfold receive. rewrite H. now destruct (_currentSession this). Qed.

(** The update on a state whose points are either none yet (the session has
    its first sample only) or a polyline from the session's first sample. *)
Lemma update_polyline this s first latest :
  _currentSession this = Some s ->
  last (PointerSession.inputData s) = Some latest ->
  (_filteredPoints this = [] /\ first = latest) \/
  (exists previous,
      polyline (HammerInput.center first) previous (_filteredPoints this)) ->
  exists this',
    _onSessionUpdate this = Some this' /\
    _currentSession this' = Some s /\
    _isClick this' = classify s (_isClick this) /\
    polyline (HammerInput.center first) (HammerInput.center latest)
      (_filteredPoints this').
Proof.
  intros Hs Hl Hpts. rewrite (update_eq _ _ _ Hs Hl).
  destruct Hpts as [[-> ->] | [previous Hp]].
  - rewrite filter_points_nil. simpl. rewrite make_normals_one.
    eexists; repeat split.
    constructor; try reflexivity; apply position_candidate.
  - destruct (filter_polyline _ _ (candidate latest s) _ Hp) as (a' & -> & Hp');
      [reflexivity..|].
    simpl. eexists; repeat split. simpl.
    apply make_normals_polyline. now rewrite position_candidate in Hp'.
Qed.

Lemma on_hammer_input_eq e this this1 :
  _onSessionUpdate (receive e this) = Some this1 ->
  on_hammer_input e this = Some (set_debugIsDirty true this1).
Proof.
  intros H. unfold on_hammer_input. rewrite H. simpl.
  now destruct (HammerInput.isFinal e).
Qed.

(** The state [receive] hands to the update. *)
Lemma receive_polyline e this :
  consistent this ->
  exists s first latest,
    _currentSession (receive e this) = Some s /\
    head (PointerSession.inputData s) = Some first /\
    last (PointerSession.inputData s) = Some latest /\
    ((_filteredPoints (receive e this) = [] /\ first = latest) \/
     (exists previous, polyline (HammerInput.center first) previous
                         (_filteredPoints (receive e this)))).
Proof.
  intros Hc. destruct (HammerInput.isFirst e) eqn:Hf.
  - rewrite (receive_first _ _ Hf), addInputPoint_create. simpl.
    exists (PointerSession.mk [e] (0 + 0) (HammerInput.isFinal e)), e, e.
    repeat split; auto.
  - rewrite (receive_later _ _ Hf). unfold consistent in Hc.
    destruct (_currentSession this) as [s0|] eqn:Hs0; simpl.
    + destruct Hc as (first & latest & Hh & Hl & Hp).
      exists (PointerSession.addInputPoint e s0), first,
             (if PointerSession.isEnded s0 then latest else e).
      repeat split.
      * now apply addInputPoint_head.
      * rewrite addInputPoint_last, Hl. now destruct (PointerSession.isEnded s0).
      * right. eauto.
    + rewrite addInputPoint_create.
      exists (PointerSession.mk [e] (0 + 0) (HammerInput.isFinal e)), e, e.
      repeat split; auto.
Qed.

(** The handler never throws on a consistent state and leaves a consistent
    state; the session and the click flag it leaves are those of the
    update. *)
Lemma on_hammer_input_consistent e this :
  consistent this ->
  exists s this',
    _currentSession (receive e this) = Some s /\
    on_hammer_input e this = Some this' /\
    _currentSession this' = Some s /\
    _isClick this' = classify s (_isClick (receive e this)) /\
    consistent this'.
Proof.
  intros Hc.
  destruct (receive_polyline e this Hc) as (s & first & latest & Hs & Hh & Hl & Hpts).
  destruct (update_polyline _ _ first _ Hs Hl Hpts) as (this1 & Hu & Hs1 & Hk & Hp1).
  exists s, (set_debugIsDirty true this1).
  split; [assumption|]. split; [now apply on_hammer_input_eq|].
  split; [assumption|]. split; [assumption|].
  unfold consistent. simpl. rewrite Hs1. eauto.
Qed.

Lemma init_consistent : consistent init.
Proof. reflexivity. Qed.

(** Every stream of events is processed without a throw, and consistency
    holds after it. *)
Lemma run_consistent events this :
  consistent this ->
  exists this', run events this = Some this' /\ consistent this'.
Proof.
  revert this. induction events as [|e events IH]; intros this Hc.
  - exists this. now split.
  - destruct (on_hammer_input_consistent e this Hc) as (s & this1 & _ & H1 & _ & _ & Hc1).
    destruct (IH this1 Hc1) as (this2 & H2 & Hc2).
    exists this2. simpl. rewrite H1. now split.
Qed.

Lemma run_app events events' this :
  run (events ++ events') this = this1 ← run events this; run events' this1.
Proof.
  revert this. induction events as [|e events IH]; intros this; [reflexivity|].
  simpl. destruct (on_hammer_input e this); [apply IH|reflexivity].
Qed.

End Handler.

Lemma reachable_consistent this : reachable this -> consistent this.
Proof.
  intros [events H].
  destruct (run_consistent events init init_consistent) as (this' & H' & Hc).
  congruence.
Qed.

(** * Start and end flags along the polyline *)

Lemma count_app f a b : count f (a ++ b) = (count f a + count f b)%nat.
Proof. unfold count. now rewrite List.filter_app, length_app. Qed.

Lemma count_interior_start mid :
  Forall interior mid -> count FilteredPoint.isStart mid = 0%nat.
Proof.
  induction 1 as [|p mid [Hs _] _ IH]; [reflexivity|].
  unfold count in *. simpl. now rewrite Hs.
Qed.

Lemma count_interior_end mid :
  Forall interior mid -> count FilteredPoint.isEnd mid = 0%nat.
Proof.
  induction 1 as [|p mid [_ He] _ IH]; [reflexivity|].
  unfold count in *. simpl. now rewrite He.
Qed.

Lemma polyline_flagged first latest a : polyline first latest a -> flagged latest a.
Proof.
  intros [x Hxs Hxe Hxf Hxl | x mid t Hxs Hxe Hxf Hmid Hts Hte Htl].
  - unfold flagged, count. simpl. rewrite Hxs, Hxe. eauto 10.
  - unfold flagged. change (x :: mid ++ [t]) with ([x] ++ mid ++ [t]).
    rewrite !count_app, (count_interior_start _ Hmid), (count_interior_end _ Hmid).
    unfold count. simpl. rewrite Hxs, Hxe, Hts, Hte. simpl.
    split; [lia|]. split; [reflexivity|]. split; [reflexivity|].
    exists t. split; [|now split].
    change (x :: mid ++ [t]) with ((x :: mid) ++ [t]). apply last_snoc.
Qed.

(** The anchor of a polyline. *)
Lemma polyline_head first latest a :
  polyline first latest a ->
  exists anchor,
    head a = Some anchor /\ FilteredPoint.isStart anchor = true /\
    position anchor = first.
Proof. intros [x ? ? ? ? | x mid t ? ? ? ? ? ? ?]; exists x; now repeat split. Qed.

Lemma receive_latest e this s :
  appended e this ->
  _currentSession (receive e this) = Some s ->
  last (PointerSession.inputData s) = Some e.
Proof.
  intros Ha Hs. destruct (HammerInput.isFirst e) eqn:Hf.
  - rewrite (receive_first _ _ Hf) in Hs. simpl in Hs. now injection Hs as <-.
  - rewrite (receive_later _ _ Hf) in Hs. simpl in Hs. injection Hs as <-.
    destruct Ha as [Ha|Ha]; [congruence|].
    destruct (_currentSession this) as [s0|]; simpl; [|reflexivity].
    now rewrite addInputPoint_last, Ha.
Qed.

(** C2.  After every event the handler processes, in whatever state the
    earlier events left the controller, the filtered points are at least
    one, exactly one of them has [isStart], exactly one has [isEnd], that
    one is the last element, and its position is the center of the most
    recent sample of the session, which is the event itself whenever the
    session appended it. *)
Theorem filtered_points_flags (e : HammerInput.t) (this : PointerEffect.t) :
  reachable this ->
  exists this' s latest,
    on_hammer_input e this = Some this' /\
    _currentSession this' = Some s /\
    last (PointerSession.inputData s) = Some latest /\
    (appended e this -> latest = e) /\
    flagged (HammerInput.center latest) (_filteredPoints this').
Proof.
  intros Hr. apply reachable_consistent in Hr.
  destruct (on_hammer_input_consistent e this Hr) as (s & this' & Hrs & Hh & Hs & _ & Hc).
  unfold consistent in Hc. rewrite Hs in Hc.
  destruct Hc as (first & latest & _ & Hl & Hp).
  exists this', s, latest. repeat split; try assumption.
  - intros Ha. pose proof (receive_latest _ _ _ Ha Hrs) as Hl'. congruence.
  - apply (polyline_flagged _ _ _ Hp).
  - apply (polyline_flagged _ _ _ Hp).
  - apply (polyline_flagged _ _ _ Hp).
  - apply (polyline_flagged _ _ _ Hp).
Qed.

Lemma filtered_points_flags_witness :
  exists this' s latest,
    on_hammer_input (sample 5 0 false false)
      (after [sample 0 0 true false]) = Some this' /\
    _currentSession this' = Some s /\
    last (PointerSession.inputData s) = Some latest /\
    (appended (sample 5 0 false false) (after [sample 0 0 true false]) ->
     latest = sample 5 0 false false) /\
    flagged (HammerInput.center latest) (_filteredPoints this').
Proof.
  apply (filtered_points_flags (sample 5 0 false false)
           (after [sample 0 0 true false])).
  exists [sample 0 0 true false]. reflexivity.
Defined.

(** ** The anchor under later events *)
Section Anchor.
Implicit Types (c p t x : FilteredPoint.t) (a : list FilteredPoint.t).

Lemma same_anchor_trans x x' x'' :
  same_anchor x x' -> same_anchor x' x'' -> same_anchor x x''.
Proof. unfold same_anchor. intros [->| ->] [->| ->]; auto. Qed.

Lemma filter_polyline_head first latest c a a' :
  polyline first latest a ->
  filter_points c a = Some a' ->
  exists x x' rest rest',
    a = x :: rest /\ a' = x' :: rest' /\ rest' <> [] /\ same_anchor x x'.
Proof.
  intros [x Hxs Hxe Hxf Hxl | x mid t Hxs Hxe Hxf Hmid Hts Hte Htl].
  - change [x] with ([] ++ [x]). rewrite filter_points_snoc, lastDetermined_snoc.
    rewrite Hxe, Hxs. simpl. rewrite orb_true_r. intros [= <-].
    exists x, (FilteredPoint.set_isEnd false x), [], [c].
    repeat split; [discriminate|now right].
  - change (x :: mid ++ [t]) with ((x :: mid) ++ [t]).
    rewrite filter_points_snoc, lastDetermined_snoc. rewrite Hte, Hts.
    destruct (last (x :: mid)) as [ld|]; [|discriminate].
    simpl. destruct (_ || _); intros [= <-].
    + exists x, x, (mid ++ [t]), (mid ++ [FilteredPoint.set_isEnd false t; c]).
      repeat split; [|now left]. now destruct mid.
    + exists x, x, (mid ++ [t]), (mid ++ [c]).
      repeat split; [|now left]. now destruct mid.
Qed.

Lemma make_normals_head b x rest :
  rest <> [] -> head (make_normals b (x :: rest)) = Some x.
Proof.
  intros Hne. destruct (snoc_cases rest) as [->|(init & t & ->)]; [done|].
  change (x :: init ++ [t]) with ((x :: init) ++ [t]).
  now destruct (make_normals_snoc b (x :: init) t) as [n ->].
Qed.

(** An event that does not start a session leaves the first sample of the
    session and the anchor where they are. *)
Lemma later_event_anchor e this s first x :
  consistent this ->
  HammerInput.isFirst e = false ->
  _currentSession this = Some s ->
  head (PointerSession.inputData s) = Some first ->
  head (_filteredPoints this) = Some x ->
  exists this' s' x',
    on_hammer_input e this = Some this' /\ consistent this' /\
    _currentSession this' = Some s' /\
    head (PointerSession.inputData s') = Some first /\
    head (_filteredPoints this') = Some x' /\ same_anchor x x'.
Proof.
  intros Hc Hf Hs Hh Hx.
  pose proof Hc as Hc0. unfold consistent in Hc0. rewrite Hs in Hc0.
  destruct Hc0 as (first0 & latest & Hh0 & Hl & Hp).
  destruct (on_hammer_input_consistent e this Hc) as (s' & this' & Hrs & Hi & Hs' & _ & Hc').
  exists this', s'.
  assert (Hrec : receive e this =
                 set_currentSession (PointerSession.addInputPoint e s) this).
  { rewrite (receive_later _ _ Hf), Hs. reflexivity. }
  rewrite Hrec in Hrs. simpl in Hrs. injection Hrs as <-.
  pose proof Hi as Hrun.
  unfold on_hammer_input in Hi. rewrite Hrec in Hi.
  destruct (last (PointerSession.inputData (PointerSession.addInputPoint e s)))
    as [latest'|] eqn:Hl'.
  2:{ rewrite addInputPoint_last, Hl in Hl'.
      now destruct (PointerSession.isEnded s). }
  rewrite (update_eq
             (set_currentSession (PointerSession.addInputPoint e s) this)
             (PointerSession.addInputPoint e s) latest' eq_refl Hl') in Hi.
  simpl in Hi.
  destruct (filter_points _ (_filteredPoints this)) as [a'|] eqn:Hfp;
    [|discriminate].
  destruct (filter_polyline_head _ _ _ _ _ Hp Hfp)
    as (x0 & x' & rest & rest' & Ha & -> & Hne & Hsame).
  rewrite Ha in Hx. injection Hx as ->.
  exists x'. simpl in Hi.
  assert (Hhead : head (_filteredPoints this') = Some x').
  { destruct (HammerInput.isFinal e); injection Hi as <-; simpl;
      now apply make_normals_head. }
  repeat split; try assumption. now apply addInputPoint_head.
Qed.

Lemma later_events_anchor events : forall this s first x,
  consistent this ->
  Forall (fun e => HammerInput.isFirst e = false) events ->
  _currentSession this = Some s ->
  head (PointerSession.inputData s) = Some first ->
  head (_filteredPoints this) = Some x ->
  exists this' s' x',
    run events this = Some this' /\ consistent this' /\
    _currentSession this' = Some s' /\
    head (PointerSession.inputData s') = Some first /\
    head (_filteredPoints this') = Some x' /\ same_anchor x x'.
Proof.
  induction events as [|e events IH]; intros this s first x Hc Hall Hs Hh Hx.
  - exists this, s, x. repeat split; try assumption. now left.
  - inversion Hall as [|? ? Hf Hall']; subst.
    destruct (later_event_anchor e this s first x Hc Hf Hs Hh Hx)
      as (this1 & s1 & x1 & H1 & Hc1 & Hs1 & Hh1 & Hx1 & Hsame1).
    destruct (IH this1 s1 first x1 Hc1 Hall' Hs1 Hh1 Hx1)
      as (this2 & s2 & x2 & H2 & Hc2 & Hs2 & Hh2 & Hx2 & Hsame2).
    exists this2, s2, x2. simpl. rewrite H1. simpl.
    repeat split; try assumption. eapply same_anchor_trans; eassumption.
Qed.

End Anchor.

(** C3.  Once a session has its anchor, no stream of later events of that
    session removes or replaces it: the first filtered point stays the same
    object (at most its [isEnd] flag is cleared), keeps [isStart], and is at
    the position of the session's first sample, before and after. *)
Theorem anchor_is_kept (this : PointerEffect.t) (s : PointerSession.t)
    (events : list HammerInput.t) :
  reachable this ->
  _currentSession this = Some s ->
  Forall (fun e => HammerInput.isFirst e = false) events ->
  exists first anchor this' s' anchor',
    head (PointerSession.inputData s) = Some first /\
    head (_filteredPoints this) = Some anchor /\
    FilteredPoint.isStart anchor = true /\
    position anchor = HammerInput.center first /\
    run events this = Some this' /\
    _currentSession this' = Some s' /\
    head (PointerSession.inputData s') = Some first /\
    head (_filteredPoints this') = Some anchor' /\
    same_anchor anchor anchor' /\
    FilteredPoint.isStart anchor' = true /\
    position anchor' = HammerInput.center first.
Proof.
  intros Hr Hs Hall. apply reachable_consistent in Hr.
  pose proof Hr as Hc. unfold consistent in Hc. rewrite Hs in Hc.
  destruct Hc as (first & latest & Hh & Hl & Hp).
  destruct (polyline_head _ _ _ Hp) as (anchor & Hx & Hxs & Hxp).
  destruct (later_events_anchor events this s first anchor Hr Hall Hs Hh Hx)
    as (this' & s' & anchor' & Hrun & Hc' & Hs' & Hh' & Hx' & Hsame).
  exists first, anchor, this', s', anchor'.
  repeat split; try assumption.
  - destruct Hsame as [->| ->]; assumption.
  - destruct Hsame as [->| ->]; assumption.
Qed.

Lemma anchor_is_kept_witness :
  exists first anchor this' s' anchor',
    head [sample 0 0 true false] = Some first /\
    head (_filteredPoints (after [sample 0 0 true false])) = Some anchor /\
    FilteredPoint.isStart anchor = true /\
    position anchor = HammerInput.center first /\
    run [sample 5 0 false false; sample 60 0 false true]
      (after [sample 0 0 true false]) = Some this' /\
    _currentSession this' = Some s' /\
    head (PointerSession.inputData s') = Some first /\
    head (_filteredPoints this') = Some anchor' /\
    same_anchor anchor anchor' /\
    FilteredPoint.isStart anchor' = true /\
    position anchor' = HammerInput.center first.
Proof.
  apply (anchor_is_kept (after [sample 0 0 true false])
           (PointerSession.mk [sample 0 0 true false] 0 false)
           [sample 5 0 false false; sample 60 0 false true]).
  - exists [sample 0 0 true false]. reflexivity.
  - reflexivity.
  - repeat constructor.
Defined.

(** ** The click flag *)

Lemma classify_swipe s b :
  (MIN_SWIPE_THRESHOLD <? PointerSession.traveledDistance s) = true ->
  classify s b = false.
Proof. intros H. unfold classify. now rewrite H. Qed.

Lemma classify_false s : classify s false = false.
Proof. unfold classify. now destruct (_ <? _). Qed.

(** Events that do not start a session never raise the flag again. *)
Lemma later_events_swipe events : forall this,
  consistent this ->
  _isClick this = false ->
  Forall (fun e => HammerInput.isFirst e = false) events ->
  exists this', run events this = Some this' /\ _isClick this' = false.
Proof.
  induction events as [|e events IH]; intros this Hc Hk Hall.
  - now exists this.
  - inversion Hall as [|? ? Hf Hall']; subst.
    destruct (on_hammer_input_consistent e this Hc)
      as (s & this1 & _ & H1 & _ & Hk1 & Hc1).
    rewrite (receive_later _ _ Hf) in Hk1. simpl in Hk1.
    rewrite Hk, classify_false in Hk1.
    destruct (IH this1 Hc1 Hk1 Hall') as (this2 & H2 & Hk2).
    exists this2. simpl. rewrite H1. now split.
Qed.

(** C6.  When an update sees a traveled distance above
    [MIN_SWIPE_THRESHOLD], the click flag is false after it, and it is
    false after every stream of later events of the same session, whatever
    their positions. *)
Theorem swipe_is_one_way (e : HammerInput.t) (this this1 : PointerEffect.t)
    (s1 : PointerSession.t) (events : list HammerInput.t) :
  reachable this ->
  on_hammer_input e this = Some this1 ->
  _currentSession this1 = Some s1 ->
  (MIN_SWIPE_THRESHOLD <? PointerSession.traveledDistance s1) = true ->
  Forall (fun e' => HammerInput.isFirst e' = false) events ->
  _isClick this1 = false /\
  exists this2, run events this1 = Some this2 /\ _isClick this2 = false.
Proof.
  intros Hr H1 Hs1 Htd Hall. apply reachable_consistent in Hr.
  destruct (on_hammer_input_consistent e this Hr)
    as (s & this1' & _ & H1' & Hs1' & Hk1 & Hc1).
  rewrite H1 in H1'. injection H1' as <-.
  rewrite Hs1 in Hs1'. injection Hs1' as <-.
  rewrite (classify_swipe _ _ Htd) in Hk1.
  split; [assumption|]. now apply later_events_swipe.
Qed.

Lemma swipe_is_one_way_witness :
  _isClick (after [sample 0 0 true false; sample 11 0 false false]) = false /\
  exists this2,
    run [sample 11 0 false false; sample 11 0 false true]
      (after [sample 0 0 true false; sample 11 0 false false]) = Some this2 /\
    _isClick this2 = false.
Proof.
  apply (swipe_is_one_way (sample 11 0 false false)
           (after [sample 0 0 true false])
           (after [sample 0 0 true false; sample 11 0 false false])
           (PointerSession.mk
              [sample 0 0 true false; sample 11 0 false false] 11 false)
           [sample 11 0 false false; sample 11 0 false true]).
  - exists [sample 0 0 true false]. reflexivity.
  - reflexivity.
  - reflexivity.
  - reflexivity.
  - repeat constructor.
Defined.

(** ** A session that starts without a first event *)

(** C10.  An event that is not a first one and finds no session gets a new
    session with the event appended, and the update then runs on the click
    flag and the filtered points the controller already had: they are not
    reset.  The reset to [true] and to the empty array is made for first
    events and for no others. *)
Theorem no_reset_without_first (e : HammerInput.t) (this : PointerEffect.t) :
  _currentSession this = None ->
  HammerInput.isFirst e = false ->
  let session := PointerSession.addInputPoint e PointerSession.create in
  _currentSession (receive e this) = Some session /\
  _isClick (receive e this) = _isClick this /\
  _filteredPoints (receive e this) = _filteredPoints this /\
  on_hammer_input e this =
    (points ← filter_points (candidate e session) (_filteredPoints this);
     Some (PointerEffect.mk (Some session)
             (classify session (_isClick this))
             (make_normals (classify session (_isClick this)) points)
             (_meshPoints this) true)) /\
  (forall e' this',
      (_isClick (receive e' this'), _filteredPoints (receive e' this')) =
      if HammerInput.isFirst e' then (true, [])
      else (_isClick this', _filteredPoints this')).
Proof.
  intros Hs Hf session.
  assert (Hrec : receive e this = set_currentSession session this).
  { rewrite (receive_later _ _ Hf), Hs. reflexivity. }
  rewrite Hrec. repeat split.
  - unfold on_hammer_input. rewrite Hrec.
    rewrite (update_eq (set_currentSession session this) session e eq_refl eq_refl).
    simpl. destruct (filter_points _ _); [|reflexivity].
    simpl. now destruct (HammerInput.isFinal e).
  - intros e' this'. destruct (HammerInput.isFirst e') eqn:Hf'.
    + now rewrite (receive_first _ _ Hf').
    + now rewrite (receive_later _ _ Hf').
Qed.

Lemma no_reset_without_first_witness :
  _isClick (receive (sample 3 4 false false) init) = false /\
  _filteredPoints (receive (sample 3 4 false false) init) = [] /\
  (_isClick <$> on_hammer_input (sample 3 4 false false) init) = Some false.
Proof.
  destruct (no_reset_without_first (sample 3 4 false false) init eq_refl eq_refl)
    as (_ & Hk & Hp & Hrun & _).
  split; [exact Hk|]. split; [exact Hp|]. rewrite Hrun. reflexivity.
Defined.

(** * One update *)

Section Update.
Implicit Types (this : PointerEffect.t) (s : PointerSession.t).
Implicit Types (c p t : FilteredPoint.t) (a : list FilteredPoint.t).

Lemma polyline_tail first latest a t :
  polyline first latest (a ++ [t]) ->
  FilteredPoint.isEnd t = true /\ is_Some (lastDetermined (a ++ [t]) t).
Proof.
  intros Hp. rewrite lastDetermined_snoc.
  inversion Hp as [x Hxs Hxe Hxf Hxl Heq | x mid u Hxs Hxe Hxf Hmid Hts Hte Htl Heq].
  - destruct a as [|? [|? ?]]; try discriminate.
    injection Heq as ->. rewrite Hxs. eauto.
  - change (x :: mid ++ [u]) with ((x :: mid) ++ [u]) in Heq.
    apply app_inj_tail in Heq as [<- ->]. rewrite Hts. split; [assumption|].
    destruct (last (x :: mid)) eqn:Hl; [eauto|].
    apply last_None in Hl. discriminate.
Qed.

(** Every update the handler makes from a consistent state is on such a
    state. *)
Lemma receive_updatable (e : HammerInput.t) this :
  consistent this -> exists s, updatable (receive e this) s.
Proof.
  intros Hc.
  destruct (receive_polyline e this Hc) as (s & first & latest & Hs & Hh & Hl & Hpts).
  exists s. split; [assumption|]. split.
  - intros Hnil. rewrite Hnil in Hl. discriminate.
  - intros a t Ha. destruct Hpts as [[Hnil _] | [previous Hp]].
    + rewrite Hnil in Ha. now destruct a.
    + rewrite Ha in Hp. apply (polyline_tail _ _ _ _ Hp).
Qed.

(** The filter leaves the candidate, with the normal it was built with,
    at the end of the array. *)
Lemma filter_points_fresh c a a' :
  filter_points c a = Some a' ->
  exists c0, last a' = Some c0 /\
             FilteredPoint.normal c0 = FilteredPoint.normal c /\
             position c0 = position c.
Proof.
  intros Hf. destruct (snoc_cases a) as [->|(b & t & ->)].
  - rewrite filter_points_nil in Hf. injection Hf as <-.
    exists (FilteredPoint.set_isStart true c). now repeat split.
  - rewrite filter_points_snoc in Hf.
    destruct (if FilteredPoint.isEnd t then _ else _) as [ld|]; [|discriminate].
    simpl in Hf. destruct (_ || _); injection Hf as <-; exists c.
    + replace (b ++ [FilteredPoint.set_isEnd false t; c])
        with ((b ++ [FilteredPoint.set_isEnd false t]) ++ [c])
        by now rewrite <- (assoc_L (++)).
      now rewrite last_snoc.
    + now rewrite last_snoc.
Qed.

(** The update on such a state, in one equation. *)
Lemma update_updatable this s :
  updatable this s ->
  exists currentInput points,
    last (PointerSession.inputData s) = Some currentInput /\
    filter_points (candidate currentInput s) (_filteredPoints this) = Some points /\
    _onSessionUpdate this =
    Some (PointerEffect.mk (Some s) (classify s (_isClick this))
            (make_normals (classify s (_isClick this)) points)
            (_meshPoints this) (_debugIsDirty this)).
Proof.
  intros (Hs & Hne & Htail).
  destruct (last (PointerSession.inputData s)) as [currentInput|] eqn:Hl.
  2:{ apply last_None in Hl. contradiction. }
  exists currentInput. rewrite (update_eq _ _ _ Hs Hl).
  destruct (snoc_cases (_filteredPoints this)) as [->|(a & t & Ha)].
  - rewrite filter_points_nil. eauto.
  - destruct (Htail a t Ha) as [He [ld Hld]].
    rewrite Ha, filter_points_snoc, He, Hld. simpl.
    destruct (_ || _); eauto.
Qed.

Lemma length_make_normals b a : length (make_normals b a) = length a.
Proof.
  destruct (snoc_cases a) as [->|(a' & t & ->)]; [now rewrite make_normals_nil|].
  destruct (make_normals_snoc b a' t) as [n ->]. now rewrite !length_app.
Qed.

End Update.

(** [ready] decides [updatable]. *)
Lemma ready_updatable (this : PointerEffect.t) (s : PointerSession.t) :
  ready this = true -> _currentSession this = Some s -> updatable this s.
Proof.
  unfold ready. intros Hr Hs. rewrite Hs in Hr.
  destruct (last (PointerSession.inputData s)) as [latest|] eqn:Hl;
    [|discriminate].
  split; [assumption|]. split.
  - intros Hnil. rewrite Hnil in Hl. discriminate.
  - intros a t Ha. rewrite Ha, last_snoc in Hr.
    apply andb_true_iff in Hr as [He Hld]. split; [assumption|].
    destruct (lastDetermined (a ++ [t]) t); [eauto|discriminate].
Qed.

Lemma updatable_ready (this : PointerEffect.t) (s : PointerSession.t) :
  updatable this s -> ready this = true.
Proof.
  intros (Hs & Hne & Htail). unfold ready. rewrite Hs.
  destruct (last (PointerSession.inputData s)) eqn:Hl.
  2:{ apply last_None in Hl. contradiction. }
  destruct (snoc_cases (_filteredPoints this)) as [->|(a & t & Ha)];
    [reflexivity|].
  destruct (Htail a t Ha) as [He [ld Hld]].
  rewrite Ha, last_snoc, He, Hld. reflexivity.
Qed.

Lemma ready_session (this : PointerEffect.t) :
  ready this = true -> exists s, updatable this s.
Proof.
  intros Hr. destruct (_currentSession this) as [s|] eqn:Hs.
  - exists s. now apply ready_updatable.
  - unfold ready in Hr. rewrite Hs in Hr. discriminate.
Qed.

(** Every update the handler makes from a reachable state is on a ready
    state. *)
Lemma reachable_ready (e : HammerInput.t) (this : PointerEffect.t) :
  reachable this -> ready (receive e this) = true.
Proof.
  intros Hr. apply reachable_consistent in Hr.
  destruct (receive_updatable e this Hr) as [s Hu].
  apply (updatable_ready _ _ Hu).
Qed.

(** C1.  An update on a non-empty array of filtered points measures the
    candidate's traveled distance, which is the session's, from
    [lastDetermined]: the tail itself when the tail is the anchor and the
    point before the tail otherwise.  The tail has [isEnd] set.  When the
    difference exceeds [MIN_SWIPE_SEG] or the tail is the anchor, the array
    becomes the points before the tail, the tail with [isEnd] false and
    every other field as it was, and the candidate, so it grows by one;
    otherwise the candidate takes the tail's place and the length is
    unchanged.  The candidate is at the center of the newest sample, refers
    to it, is not a start and is the end; its normal is the only field the
    rest of the update may still set. *)
Theorem update_appends_or_overwrites (this : PointerEffect.t)
    (s : PointerSession.t) (a : list FilteredPoint.t) (tail : FilteredPoint.t) :
  ready this = true ->
  _currentSession this = Some s ->
  _filteredPoints this = a ++ [tail] ->
  exists currentInput lastDeterminedPoint n this',
    last (PointerSession.inputData s) = Some currentInput /\
    (if FilteredPoint.isStart tail then Some tail else last a)
      = Some lastDeterminedPoint /\
    FilteredPoint.isEnd tail = true /\
    _onSessionUpdate this = Some this' /\
    let filteredPoint :=
      FilteredPoint.mk
        (Point.x (HammerInput.center currentInput))
        (Point.y (HammerInput.center currentInput))
        currentInput (PointerSession.traveledDistance s) 0 false true n in
    let committed :=
      FilteredPoint.mk
        (FilteredPoint.x tail) (FilteredPoint.y tail)
        (FilteredPoint.input tail) (FilteredPoint.traveledDistance tail)
        (FilteredPoint.distanceToLast tail) (FilteredPoint.isStart tail)
        false (FilteredPoint.normal tail) in
    let distanceDelta :=
      PointerSession.traveledDistance s
      - FilteredPoint.traveledDistance lastDeterminedPoint in
    if (MIN_SWIPE_SEG <? distanceDelta) || FilteredPoint.isStart tail
    then
      _filteredPoints this' = a ++ [committed; filteredPoint] /\
      FilteredPoint.isEnd committed = false /\
      length (_filteredPoints this') = S (length (_filteredPoints this))
    else
      _filteredPoints this' = a ++ [filteredPoint] /\
      length (_filteredPoints this') = length (_filteredPoints this).
Proof.
  intros Hready Hs Ha. pose proof (ready_updatable _ _ Hready Hs) as Hr.
  destruct (update_updatable this s Hr) as (currentInput & points & Hl & Hf & Hu).
  destruct Hr as (_ & _ & Htail). destruct (Htail a tail Ha) as [He [ld Hld]].
  rewrite Ha, filter_points_snoc, He, Hld in Hf. cbn [mbind option_bind] in Hf.
  rewrite lastDetermined_snoc in Hld.
  set (k := classify s (_isClick this)) in *.
  change (FilteredPoint.traveledDistance (candidate currentInput s))
    with (PointerSession.traveledDistance s) in Hf.
  destruct ((MIN_SWIPE_SEG <?
             PointerSession.traveledDistance s
             - FilteredPoint.traveledDistance ld)
            || FilteredPoint.isStart tail) eqn:Hcond; injection Hf as <-.
  - destruct (make_normals_snoc k (a ++ [FilteredPoint.set_isEnd false tail])
                (candidate currentInput s)) as [n Hn].
    rewrite <- !(assoc_L (++)) in Hn. simpl in Hn.
    exists currentInput, ld, n. eexists. split; [exact Hl|].
    split; [assumption|]. split; [assumption|]. split; [exact Hu|]. cbv zeta.
    cbn [_filteredPoints]. rewrite Hcond, Hn.
    split; [reflexivity|]. split; [reflexivity|].
    rewrite Ha, !length_app. simpl. lia.
  - destruct (make_normals_snoc k a (candidate currentInput s)) as [n Hn].
    exists currentInput, ld, n. eexists. split; [exact Hl|].
    split; [assumption|]. split; [assumption|]. split; [exact Hu|]. cbv zeta.
    cbn [_filteredPoints]. rewrite Hcond, Hn.
    split; [reflexivity|]. rewrite Ha, !length_app. reflexivity.
Qed.

Lemma update_appends_or_overwrites_witness :
  exists this',
    _onSessionUpdate
      (receive (sample 60 0 false false)
         (after [sample 0 0 true false; sample 5 0 false false])) = Some this' /\
    length (_filteredPoints this') = 3%nat.
Proof.
  destruct (update_appends_or_overwrites
              (receive (sample 60 0 false false)
                 (after [sample 0 0 true false; sample 5 0 false false]))
              (PointerSession.mk
                 [sample 0 0 true false; sample 5 0 false false;
                  sample 60 0 false false] 60 false)
              [FilteredPoint.mk 0 0 (sample 0 0 true false) 0 0 true false
                 (Vector2.mk 0 0)]
              (FilteredPoint.mk 5 0 (sample 5 0 false false) 5 0 false true
                 (Vector2.mk 0 0)))
    as (currentInput & ld & n & this' & Hl & Hld & _ & Hu & Hres).
  - reflexivity.
  - reflexivity.
  - reflexivity.
  - exists this'. split; [exact Hu|].
    injection Hl as <-. injection Hld as <-.
    destruct Hres as (_ & _ & Hlen). exact Hlen.
Defined.

(** C8.  An update leaves the normal of every point that is not the tail
    afterwards as it was: each such point was in the array before the
    update, at the same index and with the same normal.  Only the tail's
    normal is written. *)
Theorem normals_frame (this : PointerEffect.t) :
  ready this = true ->
  exists this',
    _onSessionUpdate this = Some this' /\
    forall i p',
      (S i < length (_filteredPoints this'))%nat ->
      _filteredPoints this' !! i = Some p' ->
      exists p,
        _filteredPoints this !! i = Some p /\
        FilteredPoint.normal p' = FilteredPoint.normal p.
Proof.
  intros Hready. destruct (ready_session this Hready) as [s Hr].
  destruct (update_updatable this s Hr) as (currentInput & points & Hl & Hf & Hu).
  eexists. split; [exact Hu|]. cbn [_filteredPoints].
  set (k := classify s (_isClick this)). clearbody k.
  set (c := candidate currentInput s) in *. clearbody c.
  destruct (snoc_cases (_filteredPoints this)) as [Hnil|(a & t & Ha)].
  - rewrite Hnil, filter_points_nil in Hf. injection Hf as <-.
    rewrite make_normals_one. simpl. intros i p' Hi. lia.
  - destruct Hr as (_ & _ & Htail). destruct (Htail a t Ha) as [He [ld Hld]].
    rewrite Ha, filter_points_snoc, He, Hld in Hf. cbn [mbind option_bind] in Hf.
    rewrite Ha. destruct (_ || _); injection Hf as <-.
    + replace (a ++ [FilteredPoint.set_isEnd false t; c])
        with ((a ++ [FilteredPoint.set_isEnd false t]) ++ [c])
        by now rewrite <- (assoc_L (++)).
      destruct (make_normals_snoc k (a ++ [FilteredPoint.set_isEnd false t]) c)
        as [n ->].
      intros i p'. rewrite !length_app. simpl. intros Hi.
      rewrite lookup_app_l by (rewrite length_app; simpl; lia).
      destruct (decide (i < length a)%nat) as [Hlt|Hge].
      * rewrite !lookup_app_l by assumption. eauto.
      * assert (i = length a) as -> by lia.
        rewrite !list_lookup_middle by reflexivity.
        intros [= <-]. eauto.
    + destruct (make_normals_snoc k a c) as [n ->].
      intros i p'. rewrite !length_app. simpl. intros Hi.
      rewrite !lookup_app_l by lia. eauto.
Qed.

Lemma normals_frame_witness :
  exists this',
    _onSessionUpdate
      (receive (sample 65 0 false true)
         (after [sample 0 0 true false; sample 5 0 false false;
                 sample 60 0 false false])) = Some this' /\
    forall i p',
      (S i < length (_filteredPoints this'))%nat ->
      _filteredPoints this' !! i = Some p' ->
      exists p,
        _filteredPoints
          (receive (sample 65 0 false true)
             (after [sample 0 0 true false; sample 5 0 false false;
                     sample 60 0 false false])) !! i = Some p /\
        FilteredPoint.normal p' = FilteredPoint.normal p.
Proof.
  apply (normals_frame
           (receive (sample 65 0 false true)
              (after [sample 0 0 true false; sample 5 0 false false;
                      sample 60 0 false false]))).
  reflexivity.
Defined.

(** * Vectors of binary64 numbers *)
Section Floats.
Implicit Types (a b : float) (v : Vector2.t).

Lemma float_mul_opp_opp a : (- a) * (- a) = a * a.
Proof.
  apply Prim2SF_inj. rewrite !mul_spec, opp_spec.
  destruct (Prim2SF a) as [sa|sa| |sa m e]; try destruct sa; reflexivity.
Qed.

Lemma SF64add_comm (x y : spec_float) : SF64add x y = SF64add y x.
Proof.
  unfold SF64add, SFadd.
  destruct x as [sx|sx| |sx mx ex], y as [sy|sy| |sy my ey]; try reflexivity.
  - destruct sx, sy; reflexivity.
  - destruct sx, sy; reflexivity.
  - rewrite (Z.min_comm ey ex), Z.add_comm. reflexivity.
Qed.

Lemma float_add_comm a b : a + b = b + a.
Proof. apply Prim2SF_inj. rewrite !add_spec. apply SF64add_comm. Qed.

(** A finite number minus itself is [+0]. *)
Lemma float_sub_diag a : is_finite a = true -> a - a = 0.
Proof.
  intros H. apply Prim2SF_inj. rewrite sub_spec.
  unfold is_finite, is_nan, is_infinity in H.
  rewrite !FloatAxioms.eqb_spec, abs_spec in H.
  unfold SF64sub, SFsub.
  destruct (Prim2SF a) as [sa|sa| |sa m e].
  - destruct sa; reflexivity.
  - destruct sa; discriminate.
  - discriminate.
  - rewrite Z.sub_diag. reflexivity.
Qed.

(** Turning a vector by a quarter does not change its computed length. *)
Lemma length_perpendicular v :
  Vector2.length (perpendicular v) = Vector2.length v.
Proof.
  unfold Vector2.length, perpendicular. simpl.
  now rewrite float_mul_opp_opp, float_add_comm.
Qed.

Lemma normalize_zero_length v :
  (Vector2.length v =? 0) = true -> Vector2.normalize v = v.
Proof. intros H. unfold Vector2.normalize. now rewrite H. Qed.

End Floats.

Section Normals.
Implicit Types (c p t : FilteredPoint.t) (a : list FilteredPoint.t).

Lemma segment_normal_set_normal n p t :
  segment_normal p (FilteredPoint.set_normal n t) = segment_normal p t.
Proof. reflexivity. Qed.

(** When the raw difference has computed length [0], neither
    normalisation changes its vector. *)
Lemma segment_normal_degenerate p t :
  (Vector2.length (difference p t) =? 0) = true ->
  segment_normal p t = perpendicular (difference p t).
Proof.
  intros H. unfold segment_normal, direction. fold (difference p t).
  rewrite (normalize_zero_length _ H).
  apply normalize_zero_length. now rewrite length_perpendicular.
Qed.

Lemma segment_normal_coincide p t :
  FilteredPoint.x t = FilteredPoint.x p ->
  FilteredPoint.y t = FilteredPoint.y p ->
  is_finite (FilteredPoint.x t) = true ->
  is_finite (FilteredPoint.y t) = true ->
  segment_normal p t = Vector2.mk (-0) 0.
Proof.
  intros Hx Hy Hfx Hfy.
  assert (Hd : difference p t = Vector2.mk 0 0).
  { unfold difference. rewrite <- Hx, <- Hy.
    now rewrite (float_sub_diag _ Hfx), (float_sub_diag _ Hfy). }
  rewrite segment_normal_degenerate; rewrite Hd; reflexivity.
Qed.

(** In a swipe the normals pass writes the segment's normal on the tail. *)
Lemma make_normals_swipe_tail points a p t :
  make_normals false points = a ++ [p; t] ->
  FilteredPoint.normal t = segment_normal p t.
Proof.
  intros H.
  assert (Hlen : length points = length (a ++ [p; t]))
    by now rewrite <- H, length_make_normals.
  rewrite length_app in Hlen. simpl in Hlen.
  destruct (snoc_cases points) as [->|(b & u & ->)]; [simpl in Hlen; lia|].
  destruct (snoc_cases b) as [->|(b' & q & ->)].
  { rewrite length_app in Hlen. simpl in Hlen. lia. }
  rewrite <- (assoc_L (++)) in H. simpl in H. rewrite make_normals_swipe in H.
  replace (b' ++ [q; FilteredPoint.set_normal (segment_normal q u) u])
    with ((b' ++ [q]) ++ [FilteredPoint.set_normal (segment_normal q u) u]) in H
    by now rewrite <- (assoc_L (++)).
  replace (a ++ [p; t]) with ((a ++ [p]) ++ [t]) in H
    by now rewrite <- (assoc_L (++)).
  apply app_inj_tail in H as [H <-]. apply app_inj_tail in H as [_ <-].
  reflexivity.
Qed.

(** Without a swipe, or with a single point, the pass writes nothing. *)
Lemma make_normals_idle b points :
  b = true \/ (length points < 2)%nat -> make_normals b points = points.
Proof.
  intros [->|Hlen]; [apply make_normals_click|].
  destruct points as [|p [|q points]]; [apply make_normals_nil|
    apply make_normals_one|simpl in Hlen; lia].
Qed.

End Normals.

(** * Unit normals on pixel coordinates *)
Section PixelGrid.
Implicit Types (a b : float) (v : Vector2.t).

(** Two numbers that compare equal are the same number, unless they are
    zeros. *)
Lemma float_eqb_eq a b : (a =? b) = true -> (0 <? b) = true -> a = b.
Proof.
  intros Heq Hpos. apply Prim2SF_inj.
  rewrite FloatAxioms.eqb_spec in Heq. rewrite FloatAxioms.ltb_spec in Hpos.
  change (Prim2SF 0) with (S754_zero false) in Hpos.
  unfold SFeqb in Heq. unfold SFltb in Hpos.
  destruct (Prim2SF a) as [sa|sa| |sa ma ea], (Prim2SF b) as [sb|sb| |sb mb eb];
    simpl in Heq, Hpos; try discriminate;
    destruct sa, sb; try discriminate; try reflexivity.
  destruct (Z.compare_spec ea eb) as [->| |]; try discriminate.
  destruct (Pos.compare_cont Eq ma mb) eqn:Hm; try discriminate.
  apply Pos.compare_eq in Hm as ->. reflexivity.
Qed.

Lemma float_opp_involutive a : - - a = a.
Proof.
  apply Prim2SF_inj. rewrite !opp_spec.
  destruct (Prim2SF a) as [sa|sa| |sa ma ea]; simpl; try reflexivity;
    now rewrite negb_involutive.
Qed.

Lemma SFopp_binary_round_aux prec emax sx m e l :
  binary_round_aux prec emax (negb sx) m e l
  = SFopp (binary_round_aux prec emax sx m e l).
Proof.
  unfold binary_round_aux.
  destruct (shr_fexp prec emax m e l) as [mrs' e'].
  destruct (shr_fexp prec emax _ e' loc_Exact) as [mrs'' e''].
  destruct (shr_m mrs''); try reflexivity.
  destruct (Z.leb _ _); reflexivity.
Qed.

Lemma float_mul_opp_l a b : (- a) * b = - (a * b).
Proof.
  apply Prim2SF_inj. rewrite opp_spec, !mul_spec, opp_spec.
  unfold SF64mul, SFmul.
  destruct (Prim2SF a) as [sa|sa| |sa ma ea], (Prim2SF b) as [sb|sb| |sb mb eb];
    try reflexivity; try (destruct sa, sb; reflexivity).
  cbn [SFopp].
  replace (xorb (negb sa) sb) with (negb (xorb sa sb)) by now destruct sa, sb.
  apply SFopp_binary_round_aux.
Qed.

(** Changing the sign of a coordinate, or exchanging the two coordinates,
    changes neither the computed length nor, up to that change, the
    normalised vector. *)
Lemma length_flip_x a b : Vector2.length (Vector2.mk (- a) b) = Vector2.length (Vector2.mk a b).
Proof. unfold Vector2.length. simpl. now rewrite float_mul_opp_opp. Qed.

Lemma length_flip_y a b : Vector2.length (Vector2.mk a (- b)) = Vector2.length (Vector2.mk a b).
Proof. unfold Vector2.length. simpl. now rewrite float_mul_opp_opp. Qed.

Lemma length_swap a b : Vector2.length (Vector2.mk b a) = Vector2.length (Vector2.mk a b).
Proof. unfold Vector2.length. simpl. apply f_equal, float_add_comm. Qed.

Lemma normalize_flip_x a b :
  Vector2.normalize (Vector2.mk (- a) b) =
  Vector2.mk (- Vector2.x (Vector2.normalize (Vector2.mk a b)))
             (Vector2.y (Vector2.normalize (Vector2.mk a b))).
Proof.
  unfold Vector2.normalize. rewrite length_flip_x.
  destruct (Vector2.length (Vector2.mk a b) =? 0); simpl; [reflexivity|].
  now rewrite float_mul_opp_l.
Qed.

Lemma normalize_flip_y a b :
  Vector2.normalize (Vector2.mk a (- b)) =
  Vector2.mk (Vector2.x (Vector2.normalize (Vector2.mk a b)))
             (- Vector2.y (Vector2.normalize (Vector2.mk a b))).
Proof.
  unfold Vector2.normalize. rewrite length_flip_y.
  destruct (Vector2.length (Vector2.mk a b) =? 0); simpl; [reflexivity|].
  now rewrite float_mul_opp_l.
Qed.

Lemma normalize_swap a b :
  Vector2.normalize (Vector2.mk b a) =
  Vector2.mk (Vector2.y (Vector2.normalize (Vector2.mk a b)))
             (Vector2.x (Vector2.normalize (Vector2.mk a b))).
Proof.
  unfold Vector2.normalize. rewrite length_swap.
  destruct (Vector2.length (Vector2.mk a b) =? 0); reflexivity.
Qed.

Lemma unit_ok_flip_x a b : unit_ok (- a) b = unit_ok a b.
Proof.
  unfold unit_ok, normal_of. rewrite normalize_flip_x.
  destruct (Vector2.normalize (Vector2.mk a b)) as [x y].
  unfold perpendicular. simpl. rewrite normalize_flip_y.
  unfold unit_length. now rewrite length_flip_y.
Qed.

Lemma unit_ok_flip_y a b : unit_ok a (- b) = unit_ok a b.
Proof.
  unfold unit_ok, normal_of. rewrite normalize_flip_y.
  destruct (Vector2.normalize (Vector2.mk a b)) as [x y].
  unfold perpendicular. simpl. rewrite normalize_flip_x.
  unfold unit_length. now rewrite length_flip_x.
Qed.

Lemma unit_ok_swap a b : unit_ok b a = unit_ok a b.
Proof.
  unfold unit_ok, normal_of. rewrite normalize_swap.
  destruct (Vector2.normalize (Vector2.mk a b)) as [x y].
  unfold perpendicular. simpl. rewrite !normalize_flip_x.
  unfold unit_length. rewrite !length_flip_x, (normalize_swap x y).
  now rewrite length_swap.
Qed.

Lemma upto_spec k : forall n (f : float -> bool),
  upto k (pixel n) f = true ->
  forall i, (i <= k)%nat -> f (pixel (n + i)) = true.
Proof.
  induction k as [|k IH]; intros n f H i Hi; simpl in H;
    apply andb_true_iff in H as [H0 H1].
  - replace i with 0%nat by lia. now rewrite Nat.add_0_r.
  - destruct i as [|i]; [now rewrite Nat.add_0_r|].
    rewrite Nat.add_succ_r. apply (IH (S n) f H1 i). lia.
Qed.

Lemma unit_rows_eq k n dx :
  unit_rows k n dx =
  upto n 0 (fun dy => unit_ok dx dy)
  && match k with
     | O => true
     | S k => unit_rows k (S n) (dx + 1)
     end.
Proof. now destruct k. Qed.

Lemma unit_rows_spec k : forall n,
  unit_rows k n (pixel n) = true ->
  forall i j, (i <= k)%nat -> (j <= n + i)%nat ->
  unit_ok (pixel (n + i)) (pixel j) = true.
Proof.
  induction k as [|k IH]; intros n H i j Hi Hj; rewrite unit_rows_eq in H;
    apply andb_true_iff in H as [Hrow Hnext].
  - replace i with 0%nat in * by lia. rewrite Nat.add_0_r in *.
    apply (upto_spec n 0%nat _ Hrow j Hj).
  - destruct i as [|i].
    + rewrite Nat.add_0_r in *. apply (upto_spec n 0%nat _ Hrow j Hj).
    + change (pixel n + 1) with (pixel (S n)) in Hnext.
      rewrite Nat.add_succ_r, <- Nat.add_succ_l.
      apply (IH (S n) Hnext i j); lia.
Qed.

Lemma unit_grid_spec n :
  unit_grid n = true ->
  forall i j, (i <= n)%nat -> (j <= n)%nat -> i <> 0%nat \/ j <> 0%nat ->
  unit_ok (pixel i) (pixel j) = true.
Proof.
  destruct n as [|m]; intros H i j Hi Hj Hne; [lia|].
  unfold unit_grid in H.
  pose proof (unit_rows_spec m 1%nat H) as Hrows.
  destruct (le_lt_dec j i) as [Hle|Hlt].
  - destruct i as [|i]; [lia|]. apply (Hrows i j); lia.
  - rewrite unit_ok_swap. destruct j as [|j]; [lia|]. apply (Hrows j i); lia.
Qed.

Lemma unit_grid_screen : unit_grid screen = true.
Proof. vm_compute. reflexivity. Qed.

Lemma sub_cols_spec k : forall n d0 xa,
  xa = pixel (n + d0) ->
  sub_cols k (pixel n) xa (pixel d0) = true ->
  forall d, (d <= k)%nat ->
    pixel (n + (d0 + d)) - pixel n = pixel (d0 + d) /\
    pixel n - pixel (n + (d0 + d)) = - pixel (d0 + d).
Proof.
  assert (Hhere : forall n d0,
    (pixel (n + d0) - pixel n =? pixel d0) = true ->
    (- (pixel n - pixel (n + d0)) =? pixel d0) = true ->
    (0 <? pixel d0) = true ->
    pixel (n + d0) - pixel n = pixel d0 /\
    pixel n - pixel (n + d0) = - pixel d0).
  { intros n d0 Hsub Hneg Hpos. split; [now apply float_eqb_eq|].
    rewrite <- (float_eqb_eq _ _ Hneg Hpos). now rewrite float_opp_involutive. }
  induction k as [|k IH]; intros n d0 xa -> H d Hd; simpl in H;
    apply andb_true_iff in H as [H Hnext];
    apply andb_true_iff in H as [H Hpos];
    apply andb_true_iff in H as [Hsub Hneg].
  - replace d with 0%nat by lia. rewrite Nat.add_0_r. now apply Hhere.
  - destruct d as [|d]; [rewrite Nat.add_0_r; now apply Hhere|].
    change (pixel d0 + 1) with (pixel (S d0)) in Hnext.
    rewrite Nat.add_succ_r, <- Nat.add_succ_l.
    apply (IH n (S d0) (pixel (n + d0) + 1)
             ltac:(now rewrite Nat.add_succ_r) Hnext d ltac:(lia)).
Qed.

Lemma sub_rows_eq k xb :
  sub_rows k xb =
  PrimFloat.Leibniz.eqb (xb - xb) 0
  && match k with
     | O => true
     | S k => sub_cols k xb (xb + 1) 1 && sub_rows k (xb + 1)
     end.
Proof. now destruct k. Qed.

Lemma sub_rows_spec k : forall n,
  sub_rows k (pixel n) = true ->
  forall i d, (i + d <= k)%nat ->
    pixel (n + i + d) - pixel (n + i) = pixel d /\
    ((1 <= d)%nat -> pixel (n + i) - pixel (n + i + d) = - pixel d).
Proof.
  induction k as [|k IH]; intros n H i d Hid; rewrite sub_rows_eq in H;
    apply andb_true_iff in H as [Hdiag Hnext];
    apply FloatAxioms.Leibniz.eqb_spec in Hdiag.
  - replace i with 0%nat by lia. replace d with 0%nat by lia.
    rewrite !Nat.add_0_r. split; [exact Hdiag|]. lia.
  - apply andb_true_iff in Hnext as [Hcols Hnext].
    destruct i as [|i].
    + rewrite !Nat.add_0_r. destruct d as [|d].
      * rewrite Nat.add_0_r. split; [exact Hdiag|]. lia.
      * destruct (sub_cols_spec k n 1%nat (pixel n + 1)
                    ltac:(now rewrite Nat.add_1_r) Hcols d ltac:(lia))
          as [H1 H2].
        change (1 + d)%nat with (S d) in H1, H2. now split.
    + change (pixel n + 1) with (pixel (S n)) in Hnext.
      destruct (IH (S n) Hnext i d ltac:(lia)) as [H1 H2].
      replace (n + S i)%nat with (S n + i)%nat by lia. now split.
Qed.

Lemma sub_rows_screen : sub_rows screen 0 = true.
Proof. vm_compute. reflexivity. Qed.

(** The difference of two pixel coordinates is a whole number of pixels,
    with a sign, and is [0] only for equal coordinates. *)
Lemma pixel_difference (i i' : nat) :
  (i <= screen)%nat -> (i' <= screen)%nat ->
  exists n,
    (n <= screen)%nat /\ (n = 0%nat -> i' = i) /\
    (pixel i' - pixel i = pixel n \/ pixel i' - pixel i = - pixel n).
Proof.
  intros Hi Hi'.
  pose proof (sub_rows_spec screen 0%nat sub_rows_screen) as Hsub.
  destruct (le_lt_dec i i') as [Hle|Hlt].
  - exists (i' - i)%nat. split; [lia|]. split; [lia|]. left.
    destruct (Hsub i (i' - i)%nat ltac:(lia)) as [H1 _].
    simpl in H1. now replace (i + (i' - i))%nat with i' in H1 by lia.
  - exists (i - i')%nat. split; [lia|]. split; [lia|]. right.
    destruct (Hsub i' (i - i')%nat ltac:(lia)) as [_ H2].
    simpl in H2. replace (i' + (i - i'))%nat with i in H2 by lia.
    apply H2. lia.
Qed.

(** The computed normal of a segment between two different points on
    pixel coordinates has unit length. *)
Lemma segment_normal_unit (p t : FilteredPoint.t) :
  on_pixels p -> on_pixels t -> position p <> position t ->
  unit_length (segment_normal p t) = true.
Proof.
  intros (i & j & Hi & Hj & Hpx & Hpy) (i' & j' & Hi' & Hj' & Htx & Hty) Hne.
  change (segment_normal p t) with (normal_of (difference p t)).
  unfold difference. rewrite Hpx, Hpy, Htx, Hty.
  destruct (pixel_difference i i' Hi Hi') as (n & Hn & Hn0 & Hdx).
  destruct (pixel_difference j j' Hj Hj') as (m & Hm & Hm0 & Hdy).
  assert (Hnm : n <> 0%nat \/ m <> 0%nat).
  { destruct n as [|n]; [|now left]. destruct m as [|m]; [|now right].
    exfalso. apply Hne. unfold position.
    rewrite Hpx, Hpy, Htx, Hty, (Hn0 eq_refl), (Hm0 eq_refl). reflexivity. }
  pose proof (unit_grid_spec screen unit_grid_screen n m Hn Hm Hnm) as Hok.
  fold (unit_ok (pixel i' - pixel i) (pixel j' - pixel j)).
  destruct Hdx as [-> | ->], Hdy as [-> | ->];
    rewrite ?unit_ok_flip_x, ?unit_ok_flip_y; exact Hok.
Qed.

End PixelGrid.



(** The move from (0,0) to (40,30): a swipe of two points, whose normal
    [(-0.6, 0.8)], as computed, has length [1]. *)
Example diagonal_swipe_normal :
  (fun this => (_isClick this, positions (_filteredPoints this),
                FilteredPoint.normal <$> last (_filteredPoints this),
                unit_length <$> (FilteredPoint.normal
                                   <$> last (_filteredPoints this))))
    <$> run [sample 0 0 true false; sample 40 30 false false] init
  = Some (false, [(0, 0); (40, 30)],
          Some (Vector2.mk (-0x1.3333333333333p-1) 0x1.999999999999ap-1),
          Some true).
Proof. reflexivity. Qed.

(** Off the pixel coordinates the length can be lost.  A last move by
    [2^-600], which no rounded center makes, joins two different points
    whose squared distance underflows to [0]: normalising leaves the
    difference as it is, and the normal is the raw [(-0, 2^-600)]. *)
Example tiny_step_normal :
  (fun this => (_isClick this, positions (_filteredPoints this),
                FilteredPoint.normal <$> last (_filteredPoints this),
                unit_length <$> (FilteredPoint.normal
                                   <$> last (_filteredPoints this))))
    <$> run (back_to_start ++ [tiny_step]) init
  = Some (false, [(0, 0); (0x1p-600, 0)],
          Some (Vector2.mk (-0) 0x1p-600), Some false).
Proof. reflexivity. Qed.

(** C9.  When the normals pass runs on a last segment whose two points are
    at the same finite position, the tail's normal is the zero vector
    [(-0, 0)]: both coordinates compare equal to [0], none is [NaN]. *)
Theorem coincident_points_zero_normal (this : PointerEffect.t) :
  ready this = true ->
  exists this',
    _onSessionUpdate this = Some this' /\
    forall a p t,
      _filteredPoints this' = a ++ [p; t] ->
      _isClick this' = false ->
      FilteredPoint.x t = FilteredPoint.x p ->
      FilteredPoint.y t = FilteredPoint.y p ->
      is_finite (FilteredPoint.x t) = true ->
      is_finite (FilteredPoint.y t) = true ->
      FilteredPoint.normal t = Vector2.mk (-0) 0 /\
      (Vector2.x (FilteredPoint.normal t) =? 0) = true /\
      (Vector2.y (FilteredPoint.normal t) =? 0) = true /\
      is_nan (Vector2.x (FilteredPoint.normal t)) = false /\
      is_nan (Vector2.y (FilteredPoint.normal t)) = false.
Proof.
  intros Hready. destruct (ready_session this Hready) as [s Hr].
  destruct (update_updatable this s Hr) as (currentInput & points & Hl & Hf & Hu).
  eexists. split; [exact Hu|]. cbn [_filteredPoints _isClick].
  intros a p t Ha Hk Hx Hy Hfx Hfy. rewrite Hk in Ha.
  rewrite (make_normals_swipe_tail _ _ _ _ Ha).
  rewrite (segment_normal_coincide _ _ Hx Hy Hfx Hfy).
  repeat split.
Qed.

Lemma coincident_points_zero_normal_witness :
  exists this',
    _onSessionUpdate
      (receive (sample 0 0 false false)
         (after [sample 0 0 true false; sample 20 0 false false])) = Some this' /\
    forall a p t,
      _filteredPoints this' = a ++ [p; t] ->
      _isClick this' = false ->
      FilteredPoint.x t = FilteredPoint.x p ->
      FilteredPoint.y t = FilteredPoint.y p ->
      is_finite (FilteredPoint.x t) = true ->
      is_finite (FilteredPoint.y t) = true ->
      FilteredPoint.normal t = Vector2.mk (-0) 0 /\
      (Vector2.x (FilteredPoint.normal t) =? 0) = true /\
      (Vector2.y (FilteredPoint.normal t) =? 0) = true /\
      is_nan (Vector2.x (FilteredPoint.normal t)) = false /\
      is_nan (Vector2.y (FilteredPoint.normal t)) = false.
Proof.
  apply (coincident_points_zero_normal
           (receive (sample 0 0 false false)
              (after [sample 0 0 true false; sample 20 0 false false]))).
  reflexivity.
Defined.

(** The gesture that comes back to its start: the tail is at the anchor's
    position and its normal is the zero vector. *)
Example back_to_start_normal :
  (fun this => (_isClick this, positions (_filteredPoints this),
                FilteredPoint.normal <$> last (_filteredPoints this)))
    <$> run back_to_start init
  = Some (false, [(0, 0); (0, 0)], Some (Vector2.mk (-0) 0)).
Proof. reflexivity. Qed.

(** * The two scenarios *)

(** C4, as stated, fails: the swipe scenario does not leave the three
    points (0,0), (60,0), (65,0). *)
Lemma scenario_swipe_counterexample :
  ~ (exists this,
        run scenario_swipe init = Some this /\
        positions (_filteredPoints this) = [(0, 0); (60, 0); (65, 0)]).
Proof. intros (this & Hrun & Hpos). injection Hrun as <-. discriminate Hpos. Qed.

(** C4, amended.  The samples (0,0) first, (5,0), (60,0), (65,0) final
    leave the four points (0,0), (5,0), (60,0), (65,0): the second sample is
    appended because the tail is then the anchor, and it is locked in when
    (60,0) arrives at distance 60 from the anchor.  Only the first point has
    [isStart], only the last has [isEnd], the click flag is false, and the
    tail's normal is [(-0, 1)], that is (0,1). *)
Theorem scenario_swipe_result :
  exists this tail,
    run scenario_swipe init = Some this /\
    positions (_filteredPoints this) = [(0, 0); (5, 0); (60, 0); (65, 0)] /\
    flags (_filteredPoints this) =
      [(true, false); (false, false); (false, false); (false, true)] /\
    _isClick this = false /\
    last (_filteredPoints this) = Some tail /\
    FilteredPoint.normal tail = Vector2.mk (-0) 1 /\
    (Vector2.x (FilteredPoint.normal tail) =? 0) = true /\
    (Vector2.y (FilteredPoint.normal tail) =? 1) = true.
Proof. do 2 eexists. repeat split. Qed.

(** C5, as stated, fails: the click scenario does not leave the anchor
    alone. *)
Lemma scenario_click_counterexample :
  ~ (exists this anchor,
        run scenario_click init = Some this /\
        _filteredPoints this = [anchor]).
Proof. intros (this & anchor & Hrun & Hpts). injection Hrun as <-. discriminate Hpts. Qed.

(** C5, amended.  The samples (0,0) first, (3,0) final travel a distance of
    3, so the click flag stays true and no normal is computed; the filtered
    points are the anchor (0,0), with [isStart] and without [isEnd], and
    the final sample (3,0), with [isEnd]: the second sample of a session is
    always appended. *)
Theorem scenario_click_result :
  exists this s,
    run scenario_click init = Some this /\
    _currentSession this = Some s /\
    PointerSession.traveledDistance s = 3 /\
    _isClick this = true /\
    positions (_filteredPoints this) = [(0, 0); (3, 0)] /\
    flags (_filteredPoints this) = [(true, false); (false, true)] /\
    normals (_filteredPoints this) = [Vector2.mk 0 0; Vector2.mk 0 0].
Proof. do 2 eexists. repeat split. Qed.

(** [ready] is exactly the condition under which the update of a state
    with a session returns. *)
Lemma update_defined_ready (this : PointerEffect.t) (s : PointerSession.t) :
  _currentSession this = Some s ->
  is_Some (_onSessionUpdate this) -> ready this = true.
Proof.
  intros Hs [this' Hu]. apply (updatable_ready this s). unfold _onSessionUpdate in Hu.
  rewrite Hs, js_index_end in Hu.
  destruct (last (PointerSession.inputData s)) as [currentInput|] eqn:Hl;
    [|discriminate].
  cbn [mbind option_bind] in Hu.
  destruct (filter_points _ _) as [points|] eqn:Hf; [|discriminate].
  split; [assumption|]. split.
  - intros Hnil. rewrite Hnil in Hl. discriminate.
  - intros a t Ha. rewrite Ha, filter_points_snoc in Hf.
    destruct (FilteredPoint.isEnd t); [|discriminate].
    destruct (lastDetermined (a ++ [t]) t); [eauto|discriminate].
Qed.

(** * Further properties of the handler *)

Section Steps.
Implicit Types (e : HammerInput.t) (s : PointerSession.t) (this : PointerEffect.t).
Implicit Types (c p t : FilteredPoint.t) (a : list FilteredPoint.t).

Lemma receive_session e this :
  exists s, _currentSession (receive e this) = Some s.
Proof.
  unfold receive. destruct (HammerInput.isFirst e); simpl; eauto.
Qed.

(** What a handled event is made of. *)
Lemma on_hammer_input_inv e this this' :
  on_hammer_input e this = Some this' ->
  exists s currentInput points,
    _currentSession (receive e this) = Some s /\
    last (PointerSession.inputData s) = Some currentInput /\
    filter_points (candidate currentInput s)
      (_filteredPoints (receive e this)) = Some points /\
    this' =
    PointerEffect.mk (Some s) (classify s (_isClick (receive e this)))
      (make_normals (classify s (_isClick (receive e this))) points)
      (_meshPoints (receive e this)) true.
Proof.
  intros H. destruct (receive_session e this) as [s Hs]. exists s.
  unfold on_hammer_input in H.
  destruct (last (PointerSession.inputData s)) as [currentInput|] eqn:Hl.
  - rewrite (update_eq _ _ _ Hs Hl) in H.
    destruct (filter_points _ _) as [points|] eqn:Hf; [|discriminate].
    exists currentInput, points. repeat split; try assumption.
    cbn [mbind option_bind] in H.
    destruct (HammerInput.isFinal e); now injection H as <-.
  - unfold _onSessionUpdate in H. rewrite Hs, js_index_end, Hl in H. discriminate.
Qed.

(** A property that the initial state has and every handled event keeps
    holds in every reachable state. *)
Lemma run_invariant (P : PointerEffect.t -> Prop) :
  (forall this e this',
      consistent this -> P this -> on_hammer_input e this = Some this' -> P this') ->
  forall events this this',
    consistent this -> P this -> run events this = Some this' -> P this'.
Proof.
  intros Hstep. induction events as [|e events IH]; intros this this' Hc HP Hrun.
  - now injection Hrun as <-.
  - simpl in Hrun.
    destruct (on_hammer_input_consistent e this Hc) as (s & this1 & _ & H1 & _ & _ & Hc1).
    rewrite H1 in Hrun. simpl in Hrun.
    apply (IH this1 this' Hc1); [|assumption]. now apply (Hstep this e).
Qed.

Lemma reachable_invariant (P : PointerEffect.t -> Prop) :
  P init ->
  (forall this e this',
      consistent this -> P this -> on_hammer_input e this = Some this' -> P this') ->
  forall this, reachable this -> P this.
Proof.
  intros H0 Hstep this [events Hrun].
  apply (run_invariant P Hstep events init this init_consistent H0 Hrun).
Qed.

(** What the filter and the normals pass keep of a property of all
    points. *)
Lemma filter_points_Forall (P : FilteredPoint.t -> Prop) c a a' :
  filter_points c a = Some a' ->
  Forall P a -> P c -> P (FilteredPoint.set_isStart true c) ->
  (forall p, P p -> P (FilteredPoint.set_isEnd false p)) ->
  Forall P a'.
Proof.
  intros Hf Ha Hc Hc' Hend. destruct (snoc_cases a) as [->|(b & t & ->)].
  - rewrite filter_points_nil in Hf. injection Hf as <-. now constructor.
  - rewrite filter_points_snoc in Hf.
    destruct (if FilteredPoint.isEnd t then _ else _) as [ld|]; [|discriminate].
    cbn [mbind option_bind] in Hf.
    apply Forall_app in Ha as [Hb Ht]. inversion Ht as [|? ? Ht' _]; subst.
    destruct (_ || _); injection Hf as <-; apply Forall_app; split; auto.
Qed.

Lemma make_normals_Forall (P : FilteredPoint.t -> Prop) b a :
  Forall P a ->
  (forall n p, P p -> P (FilteredPoint.set_normal n p)) ->
  Forall P (make_normals b a).
Proof.
  intros Ha Hn. destruct (snoc_cases a) as [->|(a' & t & ->)].
  - now rewrite make_normals_nil.
  - destruct (make_normals_snoc b a' t) as [n ->].
    apply Forall_app in Ha as [Ha' Ht]. inversion Ht; subst.
    apply Forall_app; split; auto.
Qed.

End Steps.

(** X1.  No stream of input events, however its first and final flags are
    set, makes the handler throw: the [TypeError] paths of the update are
    never taken from the initial state. *)
Theorem handler_never_throws (events : list HammerInput.t) :
  is_Some (run events init).
Proof.
  destruct (run_consistent events init init_consistent) as (this & H & _).
  rewrite H. eauto.
Qed.

(** A state no stream of events leads to: its tail has lost [isEnd]. *)
Example update_throws_without_tail_flag :
  _onSessionUpdate
    (PointerEffect.mk
       (Some (PointerSession.mk [sample 1 1 false false] 0 false)) false
       [FilteredPoint.mk 0 0 (sample 0 0 true false) 0 0 true false
          (Vector2.mk 0 0)] [] false)
  = None.
Proof. reflexivity. Qed.

(** X2.  The update returns exactly when the controller has no session,
    where it does nothing, or is [ready]; in every other state it throws. *)
Theorem update_returns_iff_ready (this : PointerEffect.t) :
  is_Some (_onSessionUpdate this) <->
  _currentSession this = None \/ ready this = true.
Proof.
  split.
  - intros Hsome. destruct (_currentSession this) as [s|] eqn:Hs; [|now left].
    right. apply (updatable_ready this s).
    destruct Hsome as [this' Hu]. unfold _onSessionUpdate in Hu.
    rewrite Hs, js_index_end in Hu.
    destruct (last (PointerSession.inputData s)) as [currentInput|] eqn:Hl;
      [|discriminate].
    cbn [mbind option_bind] in Hu.
    destruct (filter_points _ _) as [points|] eqn:Hf; [|discriminate].
    split; [assumption|]. split.
    + intros Hnil. rewrite Hnil in Hl. discriminate.
    + intros a t Ha. rewrite Ha, filter_points_snoc in Hf.
      destruct (FilteredPoint.isEnd t); [|discriminate].
      destruct (lastDetermined (a ++ [t]) t); [eauto|discriminate].
  - intros [Hnone|Hready].
    + unfold _onSessionUpdate. rewrite Hnone. eauto.
    + destruct (ready_session this Hready) as [s Hu].
      destruct (update_updatable this s Hu) as (? & ? & _ & _ & ->). eauto.
Qed.

(** The handler on a first event, from any state. *)
Lemma on_first_event (e : HammerInput.t) (this : PointerEffect.t) :
  HammerInput.isFirst e = true ->
  on_hammer_input e this =
  Some (PointerEffect.mk
          (Some (PointerSession.mk [e] 0 (HammerInput.isFinal e)))
          true [anchor_of e] [] true).
Proof.
  intros Hf. unfold on_hammer_input. rewrite (receive_first _ _ Hf).
  rewrite addInputPoint_create.
  rewrite (update_eq
             (PointerEffect.mk
                (Some (PointerSession.mk [e] (0 + 0) (HammerInput.isFinal e)))
                true [] [] (_debugIsDirty this))
             (PointerSession.mk [e] (0 + 0) (HammerInput.isFinal e)) e
             eq_refl eq_refl).
  cbn [_filteredPoints]. rewrite filter_points_nil.
  cbn [mbind option_bind]. rewrite make_normals_one.
  now destruct (HammerInput.isFinal e).
Qed.

(** X3.  A first event discards whatever came before it: from any state at
    all, the handler leaves a fresh session holding that event alone, the
    click flag raised, and the single filtered point of the event, which is
    both start and end. *)
Theorem first_event_starts_afresh (e : HammerInput.t) (this : PointerEffect.t) :
  HammerInput.isFirst e = true ->
  on_hammer_input e this =
  Some (PointerEffect.mk
          (Some (PointerSession.mk [e] 0 (HammerInput.isFinal e)))
          true [anchor_of e] [] true).
Proof. exact (on_first_event e this). Qed.

Lemma first_event_starts_afresh_witness :
  on_hammer_input (sample 7 9 true false) (after scenario_swipe) =
  Some (PointerEffect.mk
          (Some (PointerSession.mk [sample 7 9 true false] 0 false))
          true [anchor_of (sample 7 9 true false)] [] true).
Proof.
  apply (first_event_starts_afresh (sample 7 9 true false) (after scenario_swipe)).
  reflexivity.
Defined.

Lemma classify_true s b : classify s b = true -> b = true.
Proof. unfold classify. now destruct (_ <? _). Qed.

(** X4.  While a gesture still counts as a click no normal has been
    computed: in every reachable state with the click flag raised, every
    filtered point has the zero normal it was built with. *)
Theorem click_has_no_normals (this : PointerEffect.t) :
  reachable this ->
  _isClick this = true ->
  Forall zero_normal (_filteredPoints this).
Proof.
  revert this.
  apply (reachable_invariant
           (fun this => _isClick this = true ->
                        Forall zero_normal (_filteredPoints this))).
  { intros _. constructor. }
  intros this e this' _ IH Hrun.
  destruct (on_hammer_input_inv _ _ _ Hrun) as (s & cur & points & Hs & Hl & Hf & ->).
  cbn [_isClick _filteredPoints]. intros Hk. rewrite Hk, make_normals_click.
  apply classify_true in Hk.
  apply (filter_points_Forall zero_normal _ _ _ Hf); try reflexivity; [|auto].
  destruct (HammerInput.isFirst e) eqn:Hfirst.
  - rewrite (receive_first _ _ Hfirst). constructor.
  - rewrite (receive_later _ _ Hfirst) in Hk |- *. now apply IH.
Qed.

Lemma click_has_no_normals_witness :
  Forall zero_normal (_filteredPoints (after scenario_click)).
Proof.
  apply (click_has_no_normals (after scenario_click)).
  - exists scenario_click. reflexivity.
  - reflexivity.
Defined.

(** X5.  The anchor never gets a normal: in every reachable state the
    first filtered point has the zero normal, swipe or not. *)
Theorem anchor_normal_is_zero (this : PointerEffect.t) (anchor : FilteredPoint.t) :
  reachable this ->
  head (_filteredPoints this) = Some anchor ->
  zero_normal anchor.
Proof.
  intros Hr. revert anchor. revert this Hr.
  apply (reachable_invariant
           (fun this => forall anchor,
                head (_filteredPoints this) = Some anchor -> zero_normal anchor)).
  { intros anchor [=]. }
  intros this e this' Hc IH Hrun.
  destruct (on_hammer_input_inv _ _ _ Hrun) as (s & cur & points & Hs & Hl & Hf & ->).
  cbn [_filteredPoints].
  set (k := classify s (_isClick (receive e this))). clearbody k.
  assert (Hpts : _filteredPoints (receive e this) = [] \/
                 _filteredPoints (receive e this) = _filteredPoints this /\
                 exists first latest,
                   polyline first latest (_filteredPoints this)).
  { destruct (HammerInput.isFirst e) eqn:Hfirst.
    - left. now rewrite (receive_first _ _ Hfirst).
    - rewrite (receive_later _ _ Hfirst). simpl. unfold consistent in Hc.
      destruct (_currentSession this).
      + right. split; [reflexivity|]. destruct Hc as (? & ? & _ & _ & Hp). eauto.
      + left. assumption. }
  destruct Hpts as [Hnil | [Heq (first & latest & Hp)]].
  - rewrite Hnil, filter_points_nil in Hf. injection Hf as <-.
    rewrite make_normals_one. intros anchor [= <-]. reflexivity.
  - rewrite Heq in Hf.
    destruct (filter_polyline_head _ _ _ _ _ Hp Hf)
      as (x & x' & rest & rest' & Ha & -> & Hne & Hsame).
    rewrite (make_normals_head _ _ _ Hne). intros anchor [= <-].
    specialize (IH x). rewrite Ha in IH. specialize (IH eq_refl).
    destruct Hsame as [->| ->]; exact IH.
Qed.

Lemma anchor_normal_is_zero_witness :
  zero_normal
    (FilteredPoint.mk 0 0 (sample 0 0 true false) 0 0 true false
       (Vector2.mk 0 0)).
Proof.
  apply (anchor_normal_is_zero (after scenario_swipe)).
  - exists scenario_swipe. reflexivity.
  - reflexivity.
Defined.

Section Provenance.
Implicit Types (e : HammerInput.t) (s : PointerSession.t) (p : FilteredPoint.t).

Lemma addInputPoint_keeps e s x :
  x ∈ PointerSession.inputData s ->
  x ∈ PointerSession.inputData (PointerSession.addInputPoint e s).
Proof.
  intros H. unfold PointerSession.addInputPoint.
  destruct (PointerSession.isEnded s); [assumption|]. simpl.
  apply elem_of_app. now left.
Qed.

Lemma records_candidate e s :
  last (PointerSession.inputData s) = Some e -> records s (candidate e s).
Proof.
  intros Hl. split; [apply position_candidate|]. split; [|reflexivity].
  simpl. apply last_snoc_inv in Hl as [a' ->]. apply elem_of_app. right.
  now apply list_elem_of_singleton.
Qed.

Lemma records_addInputPoint e s p :
  records s p -> records (PointerSession.addInputPoint e s) p.
Proof.
  intros (Hp & Hin & Hd). split; [assumption|]. split; [|assumption].
  now apply addInputPoint_keeps.
Qed.

End Provenance.

(** X6.  Every filtered point records a sample of the current session: it
    is at the center of the sample it refers to, that sample is in the
    session's input data, and its [distanceToLast] is still [0]; the tail
    carries the session's current traveled distance. *)
Theorem points_record_samples (this : PointerEffect.t) (s : PointerSession.t) :
  reachable this ->
  _currentSession this = Some s ->
  Forall (records s) (_filteredPoints this) /\
  exists tail,
    last (_filteredPoints this) = Some tail /\
    FilteredPoint.traveledDistance tail = PointerSession.traveledDistance s.
Proof.
  intros Hr. revert s. revert this Hr.
  apply (reachable_invariant
           (fun this => forall s,
                _currentSession this = Some s ->
                Forall (records s) (_filteredPoints this) /\
                exists tail,
                  last (_filteredPoints this) = Some tail /\
                  FilteredPoint.traveledDistance tail
                  = PointerSession.traveledDistance s)).
  { intros s [=]. }
  intros this e this' Hc IH Hrun.
  destruct (on_hammer_input_inv _ _ _ Hrun) as (s & cur & points & Hs & Hl & Hf & ->).
  cbn [_filteredPoints _currentSession]. intros s' [= <-].
  set (k := classify s (_isClick (receive e this))). clearbody k.
  assert (Hold : Forall (records s) (_filteredPoints (receive e this))).
  { destruct (HammerInput.isFirst e) eqn:Hfirst.
    - rewrite (receive_first _ _ Hfirst). constructor.
    - rewrite (receive_later _ _ Hfirst) in Hs |- *. simpl in Hs |- *.
      injection Hs as <-. unfold consistent in Hc.
      destruct (_currentSession this) as [s0|] eqn:Hs0; simpl.
      + destruct (IH s0 eq_refl) as [Hall _].
        eapply Forall_impl; [exact Hall|]. intros p Hp.
        now apply records_addInputPoint.
      + rewrite Hc. constructor. }
  split.
  - apply make_normals_Forall; [|intros n p Hp; exact Hp].
    apply (filter_points_Forall (records s) _ _ _ Hf Hold).
    + now apply records_candidate.
    + now apply records_candidate.
    + intros p Hp. exact Hp.
  - destruct (filter_points_fresh _ _ _ Hf) as (c0 & Hc0 & _ & _).
    assert (Htd : FilteredPoint.traveledDistance c0
                  = PointerSession.traveledDistance s).
    { destruct (snoc_cases (_filteredPoints (receive e this))) as [Hnil|(b & t & Hb)].
      - rewrite Hnil, filter_points_nil in Hf. injection Hf as <-.
        injection Hc0 as <-. reflexivity.
      - rewrite Hb, filter_points_snoc in Hf.
        destruct (if FilteredPoint.isEnd t then _ else _) as [ld|]; [|discriminate].
        cbn [mbind option_bind] in Hf.
        destruct (_ || _); injection Hf as <-.
        + replace (b ++ [FilteredPoint.set_isEnd false t; candidate cur s])
            with ((b ++ [FilteredPoint.set_isEnd false t]) ++ [candidate cur s])
            in Hc0 by now rewrite <- (assoc_L (++)).
          rewrite last_snoc in Hc0. injection Hc0 as <-. reflexivity.
        + rewrite last_snoc in Hc0. injection Hc0 as <-. reflexivity. }
    apply last_snoc_inv in Hc0 as [b ->].
    destruct (make_normals_snoc k b c0) as [n ->].
    exists (FilteredPoint.set_normal n c0). rewrite last_snoc. now split.
Qed.

Lemma points_record_samples_witness :
  Forall (records (PointerSession.mk scenario_swipe 65 true))
    (_filteredPoints (after scenario_swipe)) /\
  exists tail,
    last (_filteredPoints (after scenario_swipe)) = Some tail /\
    FilteredPoint.traveledDistance tail = 65.
Proof.
  apply (points_record_samples (after scenario_swipe)
           (PointerSession.mk scenario_swipe 65 true)).
  - exists scenario_swipe. reflexivity.
  - reflexivity.
Defined.

Section Locked.
Implicit Types (c p t : FilteredPoint.t) (a : list FilteredPoint.t).

Lemma locked_snoc a t : locked (a ++ [t]) = a.
Proof.
  unfold locked. rewrite length_app. simpl.
  replace (length a + 1 - 1)%nat with (length a) by lia.
  now rewrite take_app_length.
Qed.

Lemma locked_make_normals b a : locked (make_normals b a) = locked a.
Proof.
  destruct (snoc_cases a) as [->|(a' & t & ->)]; [now rewrite make_normals_nil|].
  destruct (make_normals_snoc b a' t) as [n ->]. now rewrite !locked_snoc.
Qed.

(** The filter never touches a point before the tail and never shortens
    the array. *)
Lemma filter_points_locked c a a' :
  filter_points c a = Some a' ->
  locked a `prefix_of` locked a' /\ (length a <= length a')%nat /\
  (length a' <= S (length a))%nat.
Proof.
  intros Hf. destruct (snoc_cases a) as [->|(b & t & ->)].
  - rewrite filter_points_nil in Hf. injection Hf as <-.
    split; [apply prefix_nil|]. simpl. lia.
  - rewrite filter_points_snoc in Hf.
    destruct (if FilteredPoint.isEnd t then _ else _) as [ld|]; [|discriminate].
    cbn [mbind option_bind] in Hf. rewrite locked_snoc.
    destruct (_ || _); injection Hf as <-.
    + replace (b ++ [FilteredPoint.set_isEnd false t; c])
        with ((b ++ [FilteredPoint.set_isEnd false t]) ++ [c])
        by now rewrite <- (assoc_L (++)).
      rewrite locked_snoc. split; [now apply prefix_app_r|].
      rewrite !length_app. simpl. lia.
    + rewrite locked_snoc. split; [reflexivity|]. rewrite !length_app. simpl. lia.
Qed.

Lemma later_event_locked (e : HammerInput.t) (this this' : PointerEffect.t) :
  HammerInput.isFirst e = false ->
  on_hammer_input e this = Some this' ->
  locked (_filteredPoints this) `prefix_of` locked (_filteredPoints this') /\
  (length (_filteredPoints this) <= length (_filteredPoints this'))%nat /\
  (length (_filteredPoints this') <= S (length (_filteredPoints this)))%nat.
Proof.
  intros Hfirst Hrun.
  destruct (on_hammer_input_inv _ _ _ Hrun) as (s & cur & points & _ & _ & Hf & ->).
  rewrite (receive_later _ _ Hfirst) in Hf. simpl in Hf.
  cbn [_filteredPoints]. rewrite locked_make_normals, length_make_normals.
  apply (filter_points_locked _ _ _ Hf).
Qed.

Lemma locked_lookup a i p :
  (S i < length a)%nat -> a !! i = Some p -> locked a !! i = Some p.
Proof.
  intros Hi Hp. unfold locked. rewrite lookup_take_lt by lia. exact Hp.
Qed.

Lemma lookup_locked a i p : locked a !! i = Some p -> a !! i = Some p.
Proof.
  unfold locked. intros H.
  destruct (decide (i < length a - 1)%nat) as [Hlt|Hge].
  - now rewrite lookup_take_lt in H by assumption.
  - rewrite lookup_take_ge in H by lia. discriminate.
Qed.

End Locked.

(** X7.  Within a session a point that is no longer the tail is never
    written again: after any stream of later events every point that was
    before the tail is still at its index, unchanged in every field, it is
    still before the tail, and the array has not become shorter. *)
Theorem locked_points_are_final (this : PointerEffect.t)
    (events : list HammerInput.t) :
  reachable this ->
  Forall (fun e => HammerInput.isFirst e = false) events ->
  exists this',
    run events this = Some this' /\
    (length (_filteredPoints this) <= length (_filteredPoints this'))%nat /\
    forall i p,
      (S i < length (_filteredPoints this))%nat ->
      _filteredPoints this !! i = Some p ->
      _filteredPoints this' !! i = Some p /\
      (S i < length (_filteredPoints this'))%nat.
Proof.
  intros Hr Hall. apply reachable_consistent in Hr.
  destruct (run_consistent events this Hr) as (this' & Hrun & _).
  exists this'. split; [assumption|].
  assert (Hkey :
    locked (_filteredPoints this) `prefix_of` locked (_filteredPoints this') /\
    (length (_filteredPoints this) <= length (_filteredPoints this'))%nat).
  { clear Hr. revert this Hrun.
    induction Hall as [|e events Hfirst _ IH]; intros this Hrun.
    - injection Hrun as <-. split; reflexivity.
    - simpl in Hrun. destruct (on_hammer_input e this) as [this1|] eqn:H1;
        [|discriminate].
      simpl in Hrun.
      destruct (later_event_locked _ _ _ Hfirst H1) as (Hp1 & Hl1 & _).
      destruct (IH this1 Hrun) as (Hp2 & Hl2).
      split; [now transitivity (locked (_filteredPoints this1))|lia]. }
  destruct Hkey as [Hpre Hlen]. split; [assumption|].
  intros i p Hi Hp. split; [|lia].
  apply lookup_locked. apply (prefix_lookup_Some _ _ _ _ (locked_lookup _ _ _ Hi Hp) Hpre).
Qed.

Lemma locked_points_are_final_witness :
  exists this',
    run [sample 60 0 false false; sample 65 0 false true]
      (after [sample 0 0 true false; sample 5 0 false false]) = Some this' /\
    (length (_filteredPoints
               (after [sample 0 0 true false; sample 5 0 false false]))
     <= length (_filteredPoints this'))%nat /\
    forall i p,
      (S i < length (_filteredPoints
                       (after [sample 0 0 true false; sample 5 0 false false])))%nat ->
      _filteredPoints (after [sample 0 0 true false; sample 5 0 false false]) !! i
      = Some p ->
      _filteredPoints this' !! i = Some p /\
      (S i < length (_filteredPoints this'))%nat.
Proof.
  apply (locked_points_are_final
           (after [sample 0 0 true false; sample 5 0 false false])
           [sample 60 0 false false; sample 65 0 false true]).
  - exists [sample 0 0 true false; sample 5 0 false false]. reflexivity.
  - repeat constructor.
Defined.

Lemma anchored_consistent (e : HammerInput.t) :
  consistent
    (PointerEffect.mk
       (Some (PointerSession.mk [e] 0 (HammerInput.isFinal e)))
       true [anchor_of e] [] true)
  /\ is_Some (_currentSession
                (PointerEffect.mk
                   (Some (PointerSession.mk [e] 0 (HammerInput.isFinal e)))
                   true [anchor_of e] [] true)).
Proof.
  split; [|simpl; eauto]. unfold consistent. simpl. exists e, e. repeat split.
  constructor; try reflexivity; unfold position, anchor_of; simpl;
    now destruct (HammerInput.center e).
Qed.

(** Later events of a session add at most one point each, and the first
    of them always adds one. *)
Lemma later_events_grow (events : list HammerInput.t) : forall this,
  consistent this /\ is_Some (_currentSession this) ->
  Forall (fun e => HammerInput.isFirst e = false) events ->
  exists this',
    run events this = Some this' /\
    ((2 <= length (_filteredPoints this'))%nat \/ events = []) /\
    (length (_filteredPoints this')
     <= length (_filteredPoints this) + length events)%nat.
Proof.
  induction events as [|e events IH]; intros this [Hc Hsess] Hall.
  - exists this. split; [reflexivity|]. split; [now right|]. simpl. lia.
  - inversion Hall as [|? ? Hf Hall']; subst.
    destruct Hsess as [s0 Hs0].
    pose proof Hc as Hc0. unfold consistent in Hc0. rewrite Hs0 in Hc0.
    destruct Hc0 as (first & latest & Hh & Hl & Hp).
    destruct (polyline_head _ _ _ Hp) as (x & Hx & _ & _).
    destruct (later_event_anchor e this s0 first x Hc Hf Hs0 Hh Hx)
      as (this1 & s1 & x1 & H1 & Hc1 & Hs1 & _ & _ & _).
    destruct (later_event_locked _ _ _ Hf H1) as (_ & Hge & Hle).
    assert (H2 : (2 <= length (_filteredPoints this1))%nat).
    { destruct (on_hammer_input_inv _ _ _ H1) as (s & cur & points & _ & _ & Hfp & ->).
      rewrite (receive_later _ _ Hf) in Hfp. simpl in Hfp.
      destruct (filter_polyline_head _ _ _ _ _ Hp Hfp)
        as (? & ? & ? & rest' & _ & -> & Hne & _).
      cbn [_filteredPoints]. rewrite length_make_normals.
      destruct rest'; [done|simpl; lia]. }
    destruct (IH this1) as (this' & Hrun & Hmin & Hmax);
      [split; [assumption|rewrite Hs1; eauto]|assumption|].
    exists this'. simpl. rewrite H1. cbn [mbind option_bind].
    split; [assumption|]. split; [|lia]. left.
    destruct Hmin as [Hmin| ->]; [assumption|].
    injection Hrun as <-. assumption.
Qed.

(** X8.  A gesture of a first event and [n] later events leaves at most
    [n + 1] filtered points, whatever state it started from, and at least
    two as soon as there is a later event: the second sample is always
    kept. *)
Theorem points_are_bounded_by_events (this : PointerEffect.t)
    (e : HammerInput.t) (events : list HammerInput.t) :
  HammerInput.isFirst e = true ->
  Forall (fun e' => HammerInput.isFirst e' = false) events ->
  exists this',
    run (e :: events) this = Some this' /\
    (Nat.min 2 (S (length events)) <= length (_filteredPoints this'))%nat /\
    (length (_filteredPoints this') <= S (length events))%nat.
Proof.
  intros Hfirst Hall. cbn [run]. rewrite (on_first_event e this Hfirst).
  cbn [mbind option_bind].
  destruct (later_events_grow events _ (anchored_consistent e) Hall)
    as (this' & Hrun & Hmin & Hmax).
  exists this'. split; [assumption|]. cbn [_filteredPoints length] in Hmax.
  split; [|lia].
  destruct Hmin as [Hmin| ->]; [lia|]. injection Hrun as <-. simpl. lia.
Qed.

Lemma points_are_bounded_by_events_witness :
  exists this',
    run (sample 0 0 true false :: [sample 5 0 false false; sample 6 0 false true])
      (after scenario_swipe) = Some this' /\
    (Nat.min 2 3 <= length (_filteredPoints this'))%nat /\
    (length (_filteredPoints this') <= 3)%nat.
Proof.
  apply (points_are_bounded_by_events (after scenario_swipe)
           (sample 0 0 true false)
           [sample 5 0 false false; sample 6 0 false true]).
  - reflexivity.
  - repeat constructor.
Defined.

(** * The recognizers [init] turns off *)
Section Recognizers.
Import HammerManager.
Implicit Types (name : String.string) (manager : HammerManager.t).

Lemma get_set_enable name name' b manager :
  get name (set_enable name' b manager) =
  if String.eqb name name'
  then r ← get name manager; Some (mk_recognizer (event r) b)
  else get name manager.
Proof.
  induction manager as [|r manager IH]; simpl.
  - now destruct (String.eqb name name').
  - destruct (String.eqb_spec (event r) name') as [Hr|Hr]; simpl.
    + destruct (String.eqb_spec name name') as [Hn|Hn].
      * subst. now rewrite String.eqb_refl.
      * destruct (String.eqb_spec (event r) name) as [He|He]; [congruence|].
        reflexivity.
    + destruct (String.eqb_spec (event r) name) as [He|He].
      * subst. destruct (String.eqb_spec (event r) name'); [congruence|].
        reflexivity.
      * rewrite IH. reflexivity.
Qed.

Lemma map_event_set_enable name b manager :
  map event (set_enable name b manager) = map event manager.
Proof.
  induction manager as [|r manager IH]; [reflexivity|]. simpl.
  destruct (String.eqb (event r) name); simpl; [reflexivity|]. now rewrite IH.
Qed.

Lemma get_disabled name (names : list String.string) : forall manager,
  get name
    (foldl (fun manager name' => set_enable name' false manager) manager names)
  = if existsb (String.eqb name) names
    then r ← get name manager; Some (mk_recognizer (event r) false)
    else get name manager.
Proof.
  induction names as [|name' names IH]; intros manager; [reflexivity|].
  simpl. rewrite IH, get_set_enable.
  destruct (String.eqb name name'); simpl.
  - destruct (get name manager) as [r|]; simpl; now destruct (existsb _ names).
  - reflexivity.
Qed.

Lemma map_event_disabled (names : list String.string) : forall manager,
  map event
    (foldl (fun manager name' => set_enable name' false manager) manager names)
  = map event manager.
Proof.
  induction names as [|name' names IH]; intros manager; [reflexivity|].
  simpl. now rewrite IH, map_event_set_enable.
Qed.

End Recognizers.

(** X9.  After [init] the manager has the recognizers it came with, in the
    same order.  Looking one up by name gives the recognizer found before,
    switched off when the name is one of the six defaults and untouched
    otherwise; a default the manager does not have is skipped without an
    error. *)
Theorem init_disables_defaults (hammer : HammerManager.t)
    (canvas debugCanvas : HTMLCanvasElement.t) (babylon : BabylonController.t)
    (self : Controller.t) :
  exists manager,
    View._hammer (fst (Controller.init hammer canvas debugCanvas babylon self))
    = Some manager /\
    map HammerManager.event manager = map HammerManager.event hammer /\
    forall name,
      HammerManager.get name manager =
      if is_default name
      then r ← HammerManager.get name hammer;
           Some (HammerManager.mk_recognizer (HammerManager.event r) false)
      else HammerManager.get name hammer.
Proof.
  exists (Controller.disable_defaults hammer). split; [reflexivity|]. split.
  - apply map_event_disabled.
  - intros name. apply get_disabled.
Qed.

(** The preset of Hammer has a [doubletap] recognizer, which is not one of
    the six names: it stays on. *)
Example doubletap_stays_enabled :
  HammerManager.get "doubletap"%string
    (Controller.disable_defaults
       [HammerManager.mk_recognizer "rotate" false;
        HammerManager.mk_recognizer "pinch" false;
        HammerManager.mk_recognizer "swipe" true;
        HammerManager.mk_recognizer "pan" true;
        HammerManager.mk_recognizer "tap" true;
        HammerManager.mk_recognizer "doubletap" true;
        HammerManager.mk_recognizer "press" true]%string)
  = Some (HammerManager.mk_recognizer "doubletap"%string true).
Proof. reflexivity. Qed.

(** * Frames *)
Section Scene.
Import View Controller.
Implicit Types (self : Controller.t) (view : View.t) (this : PointerEffect.t).
Implicit Types (calls : list Call) (held : option LinesMesh.t).

Lemma mapM_to_scene camera (target : HTMLCanvasElement.t)
    (points : list FilteredPoint.t) :
  mapM (fun input => target ← Some target; Some (to_scene camera target input))
       points
  = Some (map (to_scene camera target) points).
Proof.
  induction points as [|p points IH]; [reflexivity|].
  cbn [mapM map]. rewrite IH. reflexivity.
Qed.

Lemma one_line_canvas_calls held calls :
  Forall canvas_call calls -> one_line held calls held.
Proof.
  induction 1 as [|c calls Hc _ IH]; [constructor|]. now apply one_line_canvas.
Qed.

Lemma one_line_app held calls held1 calls' held2 :
  one_line held calls held1 -> one_line held1 calls' held2 ->
  one_line held (calls ++ calls') held2.
Proof.
  induction 1; intros H2; simpl; [assumption|..].
  - apply one_line_create. auto.
  - apply one_line_dispose. auto.
  - apply one_line_canvas; auto.
Qed.

Lemma created_app calls calls' : created (calls ++ calls') = created calls ++ created calls'.
Proof. apply omap_app. Qed.

Lemma created_canvas_calls calls : Forall canvas_call calls -> created calls = [].
Proof.
  induction 1 as [|c calls Hc _ IH]; [reflexivity|].
  change (created (c :: calls))
    with (match (match c with CreateLines line => Some line | _ => None end) with
          | Some line => line :: created calls
          | None => created calls
          end).
  destruct c; simpl in Hc; try contradiction; exact IH.
Qed.

Lemma draw_points_canvas_calls (points : list FilteredPoint.t) :
  Forall canvas_call (flat_map draw_point points).
Proof.
  induction points as [|p points IH]; [constructor|].
  simpl. repeat (constructor; [exact I|]). exact IH.
Qed.

(** [updateDebugCanvas] touches nothing but the dirty flag and the 2D
    context. *)
Lemma updateDebugCanvas_spec view this :
  exists drawn,
    updateDebugCanvas (view, this) =
      ((view,
        set_debugIsDirty
          (_debugIsDirty this && negb (bool_decide (is_Some (_debugCanvas view))))
          this), drawn) /\
    Forall canvas_call drawn /\
    (_debugIsDirty this = false -> drawn = []).
Proof.
  unfold updateDebugCanvas. destruct (_debugCanvas view) as [canvas|].
  - destruct (_debugIsDirty this) eqn:Hd; simpl.
    + destruct (HTMLCanvasElement.context2d canvas); simpl.
      * eexists. split; [reflexivity|]. split; [|discriminate].
        constructor; [exact I|].
        destruct (_currentSession this); [|constructor].
        repeat (constructor; [exact I|]). apply Forall_app. split.
        -- apply draw_points_canvas_calls.
        -- repeat constructor.
      * exists []. repeat split. constructor.
    + exists []. repeat split; [|constructor].
      destruct this; simpl in *; now subst.
  - exists []. rewrite andb_true_r. repeat split; [|constructor].
    destruct this; reflexivity.
Qed.

Lemma set_debugIsDirty_consistent b this :
  consistent this -> consistent (set_debugIsDirty b this).
Proof. intros H. exact H. Qed.

Lemma init_installed hammer canvas debugCanvas babylon :
  installed (Controller.init hammer canvas debugCanvas babylon Controller.create).
Proof.
  unfold installed. simpl. repeat split; eauto. discriminate.
Qed.

(** A frame on an installed controller: it never throws, and it either
    does nothing or replaces the line by one with a vertex per filtered
    point, redraws the debug canvas and leaves the dirty flag down. *)
Lemma update_installed self :
  installed self ->
  exists self' calls,
    update self = Some (self', calls) /\
    installed self' /\
    ((calls = [] /\ self' = self /\
      forall babylon,
        _babylon (fst self) = Some babylon ->
        BabylonController.isInited babylon && _debugIsDirty (snd self) = false)
     \/
     (exists babylon line drawn,
        _babylon (fst self) = Some babylon /\
        BabylonController.isInited babylon = true /\
        _debugIsDirty (snd self) = true /\
        debug_line (length (_filteredPoints (snd self))) line /\
        Forall canvas_call drawn /\
        calls = dispose_held (fst self) ++ [CreateLines line] ++ drawn /\
        self' = (View.set_line line (fst self),
                 set_debugIsDirty false (snd self)))).
Proof.
  destruct self as [view this].
  intros ([target Ht] & [canvas Hc] & [babylon Hb] & Hcons & Hdirty).
  simpl in Ht, Hc, Hb, Hcons, Hdirty.
  unfold update. rewrite Hb.
  destruct (negb (BabylonController.isInited babylon) || negb (_debugIsDirty this))
    eqn:Hguard.
  { exists (view, this), []. split; [reflexivity|].
    split; [unfold installed; simpl; rewrite Ht, Hc, Hb; eauto 10|].
    left. split; [reflexivity|]. split; [reflexivity|].
    simpl. intros b Hb'. rewrite Hb in Hb'. injection Hb' as <-.
    destruct (BabylonController.isInited babylon), (_debugIsDirty this);
      simpl in *; congruence. }
  apply orb_false_iff in Hguard as [Hinit Hd].
  apply negb_false_iff in Hinit, Hd.
  destruct (Hdirty Hd) as [s Hs]. rewrite Hs, Ht.
  rewrite mapM_to_scene. cbn [mbind option_bind].
  set (line := LinesMesh.mk "debugLine"%string
                 (map (to_scene (BabylonController.camera babylon) target)
                      (_filteredPoints this)) (0.5, 0.5, 0.5)).
  destruct (updateDebugCanvas_spec (View.set_line line view) this)
    as (drawn & -> & Hdrawn & _).
  cbn [View._debugCanvas View.set_line]. rewrite Hc.
  rewrite bool_decide_eq_true_2 by eauto. rewrite andb_false_r.
  eexists _, _. split; [reflexivity|]. split.
  { unfold installed. simpl. rewrite Ht, Hc, Hb. repeat split; eauto. }
  right. exists babylon, line, drawn. simpl.
  repeat split; try assumption.
  - unfold line. simpl. now rewrite length_map.
  - unfold line. simpl. apply Forall_map. apply Forall_forall. now intros p _.
Qed.

Lemma debug_installed self :
  installed self ->
  exists this' drawn,
    updateDebugCanvas self = ((fst self, this'), drawn) /\
    installed (fst self, this') /\
    this' = set_debugIsDirty false (snd self) /\
    Forall canvas_call drawn /\
    (_debugIsDirty (snd self) = false -> drawn = []).
Proof.
  destruct self as [view this].
  intros (Ht & [canvas Hc] & Hb & Hcons & Hdirty). simpl in *.
  destruct (updateDebugCanvas_spec view this) as (drawn & Hu & Hdrawn & Hidle).
  rewrite Hc, bool_decide_eq_true_2, andb_false_r in Hu by eauto.
  exists (set_debugIsDirty false this), drawn. split; [exact Hu|].
  split; [|now repeat split].
  unfold installed. simpl. rewrite Hc. repeat split; eauto. discriminate.
Qed.

(** One action on an installed controller. *)
Lemma step_installed action self :
  installed self ->
  exists self' calls,
    step action self = Some (self', calls) /\ installed self' /\
    one_line (_line (fst self)) calls (_line (fst self')) /\
    Forall (fun line => exists n, (1 <= n)%nat /\ debug_line n line)
           (created calls).
Proof.
  intros Hi. destruct action as [e| | |]; simpl.
  - destruct Hi as (Ht & Hc & Hb & Hcons & Hdirty).
    destruct (on_hammer_input_consistent e (snd self) Hcons)
      as (s & this' & _ & -> & Hs & _ & Hcons').
    exists (fst self, this'), []. split; [reflexivity|].
    split; [|split; constructor].
    unfold installed. simpl. rewrite Hs. repeat split; eauto.
  - destruct (update_installed self Hi) as (self' & calls & -> & Hi' & Hcases).
    exists self', calls. split; [reflexivity|]. split; [assumption|].
    destruct Hcases as [(-> & -> & _) |
      (babylon & line & drawn & Hb & Hinit & Hd & Hline & Hdrawn & -> & ->)].
    + split; constructor.
    + split.
      * unfold dispose_held. destruct (View._line (fst self)); simpl.
        -- apply one_line_dispose, one_line_create.
           now apply one_line_canvas_calls.
        -- apply one_line_create. now apply one_line_canvas_calls.
      * rewrite !created_app, (created_canvas_calls _ Hdrawn).
        assert (Hnone : created (dispose_held (fst self)) = []).
        { unfold dispose_held. now destruct (View._line (fst self)). }
        rewrite Hnone. simpl. constructor; [|constructor].
        exists (length (_filteredPoints (snd self))). split; [|assumption].
        destruct Hi as (_ & _ & _ & Hcons & Hdirty).
        destruct (Hdirty Hd) as [s Hs]. unfold consistent in Hcons.
        rewrite Hs in Hcons. destruct Hcons as (? & ? & _ & _ & Hp).
        apply (polyline_flagged _ _ _ Hp).
  - destruct (debug_installed self Hi) as (this' & drawn & -> & Hi' & _ & Hdrawn & _).
    exists (fst self, this'), drawn. split; [reflexivity|]. split; [assumption|].
    split; [now apply one_line_canvas_calls|].
    rewrite (created_canvas_calls _ Hdrawn). constructor.
  - eexists _, []. split; [reflexivity|]. split; [|split; constructor].
    destruct Hi as (Ht & Hc & [b Hb] & Hcons & Hdirty).
    unfold installed. simpl. rewrite Hb. simpl. repeat split; eauto.
Qed.

Lemma play_installed actions : forall self,
  installed self ->
  exists self' calls,
    play actions self = Some (self', calls) /\ installed self' /\
    one_line (_line (fst self)) calls (_line (fst self')) /\
    Forall (fun line => exists n, (1 <= n)%nat /\ debug_line n line)
           (created calls).
Proof.
  induction actions as [|action actions IH]; intros self Hi.
  - exists self, []. split; [reflexivity|]. split; [assumption|].
    split; constructor.
  - destruct (step_installed action self Hi) as (self1 & calls1 & H1 & Hi1 & Ho1 & Hc1).
    destruct (IH self1 Hi1) as (self2 & calls2 & H2 & Hi2 & Ho2 & Hc2).
    exists self2, (calls1 ++ calls2). simpl. rewrite H1. simpl. rewrite H2. simpl.
    split; [reflexivity|]. split; [assumption|]. split.
    + eapply one_line_app; eassumption.
    + rewrite created_app. now apply Forall_app.
Qed.

Lemma playable_installed self : playable self -> installed self.
Proof.
  intros (hammer & canvas & debugCanvas & babylon & actions & calls & Hplay).
  destruct (play_installed actions _
              (init_installed hammer canvas debugCanvas babylon))
    as (self' & calls' & Hplay' & Hi & _).
  rewrite Hplay in Hplay'. now injection Hplay' as <- _.
Qed.

End Scene.

(** X10.  However input events, frames, direct calls of
    [updateDebugCanvas] and the scene becoming ready follow each other
    after [init], nothing throws, and the lines are handled one at a time:
    a line is created only when none is alive, the line disposed of is the
    one that is alive, and the line left alive is the one the controller
    holds. *)
Theorem lines_never_leak (hammer : HammerManager.t)
    (canvas debugCanvas : HTMLCanvasElement.t) (babylon : BabylonController.t)
    (actions : list Controller.Action) :
  exists self calls,
    Controller.play actions
      (Controller.init hammer canvas debugCanvas babylon Controller.create)
    = Some (self, calls) /\
    one_line None calls (View._line (fst self)).
Proof.
  destruct (play_installed actions _
              (init_installed hammer canvas debugCanvas babylon))
    as (self & calls & Hplay & _ & Hone & _).
  exists self, calls. split; assumption.
Qed.

(** X11.  Every line [update] ever creates is a grey [debugLine] with at
    least one vertex and all its vertices at [z = 0]: a frame draws only
    after an input event, and then there is a filtered point. *)
Theorem created_lines_have_vertices (hammer : HammerManager.t)
    (canvas debugCanvas : HTMLCanvasElement.t) (babylon : BabylonController.t)
    (actions : list Controller.Action) :
  exists self calls,
    Controller.play actions
      (Controller.init hammer canvas debugCanvas babylon Controller.create)
    = Some (self, calls) /\
    Forall (fun line => exists n, (1 <= n)%nat /\ debug_line n line)
           (created calls).
Proof.
  destruct (play_installed actions _
              (init_installed hammer canvas debugCanvas babylon))
    as (self & calls & Hplay & _ & _ & Hlines).
  exists self, calls. split; assumption.
Qed.

(** X12.  [update] is idempotent: a second frame with no input in between
    makes no call and changes nothing. *)
Theorem frame_is_idempotent (self : Controller.t) :
  playable self ->
  exists self1 calls1,
    Controller.step Controller.frame self = Some (self1, calls1) /\
    Controller.step Controller.frame self1 = Some (self1, []).
Proof.
  intros Hp. apply playable_installed in Hp.
  destruct (update_installed self Hp) as (self1 & calls1 & H1 & Hi1 & Hcases).
  exists self1, calls1. split; [exact H1|]. simpl.
  destruct Hcases as [(_ & -> & Hidle) |
    (babylon & line & drawn & Hb & Hinit & Hd & _ & _ & _ & ->)].
  - destruct (update_installed self Hp) as (self2 & calls2 & H2 & _ & Hcases).
    rewrite H2.
    destruct Hcases as [(-> & -> & _) |
      (babylon & line & drawn & Hb & Hinit & Hd & _)]; [reflexivity|].
    specialize (Hidle babylon Hb). rewrite Hinit, Hd in Hidle. discriminate.
  - unfold Controller.update. simpl. rewrite Hb, Hinit. reflexivity.
Qed.

Lemma frame_is_idempotent_witness :
  exists self1 calls1,
    Controller.step Controller.frame
      (fst demo, after [sample 4 2 true false; sample 40 2 false false])
    = Some (self1, calls1) /\
    Controller.step Controller.frame self1 = Some (self1, []).
Proof.
  apply (frame_is_idempotent
           (fst demo, after [sample 4 2 true false; sample 40 2 false false])).
  exists [], demo_canvas, demo_canvas,
    (BabylonController.mk true (Camera.mk (fun v => v))),
    [Controller.hammer_input (sample 4 2 true false);
     Controller.hammer_input (sample 40 2 false false)], [].
  reflexivity.
Defined.

(** On that controller the dirty flag is up, and the first frame does draw:
    it creates a line of two vertices and fills two squares. *)
Example first_frame_draws :
  (fun r => ((fun line => length (LinesMesh.points line)) <$> created (snd r),
             length (squares (snd r)),
             _debugIsDirty (snd (fst r))))
    <$> Controller.step Controller.frame
          (fst demo, after [sample 4 2 true false; sample 40 2 false false])
  = Some ([2%nat], 2%nat, false)
  /\ _debugIsDirty (after [sample 4 2 true false; sample 40 2 false false]) = true.
Proof. split; reflexivity. Qed.

(** X13.  A direct call of [updateDebugCanvas] between an input event and
    the next frame takes the dirty flag with it: the frame then makes no
    call, so no line is built for that event and the controller keeps the
    line it had. *)
Theorem debug_frame_takes_the_refresh (self : Controller.t) (e : HammerInput.t) :
  playable self ->
  exists self' calls,
    Controller.play
      [Controller.hammer_input e; Controller.debug_frame; Controller.frame] self
    = Some (self', calls) /\
    created calls = [] /\
    View._line (fst self') = View._line (fst self) /\
    _debugIsDirty (snd self') = false.
Proof.
  intros Hp. apply playable_installed in Hp.
  destruct (step_installed (Controller.hammer_input e) self Hp)
    as (self1 & calls1 & H1 & Hi1 & _ & _).
  simpl in H1. destruct (on_hammer_input e (snd self)) as [this1|] eqn:He;
    [|discriminate].
  simpl in H1. injection H1 as <- <-.
  destruct (debug_installed _ Hi1) as (this2 & drawn & H2 & Hi2 & -> & Hdrawn & _).
  cbn [fst snd] in H2, Hi2.
  destruct (update_installed _ Hi2) as (self3 & calls3 & H3 & _ & Hcases).
  destruct Hcases as [(-> & -> & _) | (b & line & d & _ & _ & Hd & _)];
    [|simpl in Hd; discriminate].
  exists (fst self, set_debugIsDirty false this1), drawn.
  split.
  - cbn [Controller.play Controller.step]. rewrite He. cbn [mbind option_bind].
    cbn [fst snd]. rewrite H2. cbn [mbind option_bind].
    rewrite H3. cbn [mbind option_bind]. now rewrite !app_nil_r.
  - split; [now apply created_canvas_calls|]. split; reflexivity.
Qed.

Lemma debug_frame_takes_the_refresh_witness :
  exists self' calls,
    Controller.play
      [Controller.hammer_input (sample 4 2 true false);
       Controller.debug_frame; Controller.frame] demo
    = Some (self', calls) /\
    created calls = [] /\
    View._line (fst self') = View._line (fst demo) /\
    _debugIsDirty (snd self') = false.
Proof.
  apply (debug_frame_takes_the_refresh demo (sample 4 2 true false)).
  exists [], demo_canvas, demo_canvas,
    (BabylonController.mk true (Camera.mk (fun v => v))), [], [].
  reflexivity.
Defined.

(** X14.  With the scene ready, an input event followed by a frame builds
    exactly one line, with one vertex per filtered point; the controller
    holds that line and the dirty flag is down again. *)
Theorem input_then_frame_rebuilds_the_line (self : Controller.t)
    (babylon : BabylonController.t) (e : HammerInput.t) :
  playable self ->
  View._babylon (fst self) = Some babylon ->
  BabylonController.isInited babylon = true ->
  exists self' calls line,
    Controller.play [Controller.hammer_input e; Controller.frame] self
    = Some (self', calls) /\
    created calls = [line] /\
    View._line (fst self') = Some line /\
    debug_line (length (_filteredPoints (snd self'))) line /\
    _debugIsDirty (snd self') = false.
Proof.
  intros Hp Hb Hinit. apply playable_installed in Hp.
  destruct (step_installed (Controller.hammer_input e) self Hp)
    as (self1 & calls1 & H1 & Hi1 & _ & _).
  simpl in H1. destruct (on_hammer_input e (snd self)) as [this1|] eqn:He;
    [|discriminate].
  simpl in H1. injection H1 as <- <-.
  assert (Hd1 : _debugIsDirty this1 = true).
  { destruct (on_hammer_input_inv _ _ _ He) as (? & ? & ? & _ & _ & _ & ->).
    reflexivity. }
  destruct (update_installed _ Hi1) as (self2 & calls2 & H2 & _ & Hcases).
  destruct Hcases as [(_ & _ & Hidle) |
    (b & line & drawn & _ & _ & _ & Hline & Hdrawn & -> & ->)].
  { specialize (Hidle babylon Hb). simpl in Hidle.
    rewrite Hinit, Hd1 in Hidle. discriminate. }
  eexists _, _, line. split.
  - cbn [Controller.play Controller.step]. rewrite He. cbn [mbind option_bind].
    rewrite H2. cbn [mbind option_bind]. reflexivity.
  - simpl. split.
    + rewrite app_nil_r.
      change (CreateLines line :: drawn) with ([CreateLines line] ++ drawn).
      rewrite !created_app, (created_canvas_calls _ Hdrawn).
      unfold dispose_held. now destruct (View._line (fst self)).
    + split; [reflexivity|]. split; [exact Hline|reflexivity].
Qed.

Lemma input_then_frame_rebuilds_the_line_witness :
  exists self' calls line,
    Controller.play
      [Controller.hammer_input (sample 4 2 true false); Controller.frame] demo
    = Some (self', calls) /\
    created calls = [line] /\
    View._line (fst self') = Some line /\
    debug_line (length (_filteredPoints (snd self'))) line /\
    _debugIsDirty (snd self') = false.
Proof.
  apply (input_then_frame_rebuilds_the_line demo
           (BabylonController.mk true (Camera.mk (fun v => v)))
           (sample 4 2 true false)).
  - exists [], demo_canvas, demo_canvas,
      (BabylonController.mk true (Camera.mk (fun v => v))), [], [].
    reflexivity.
  - reflexivity.
  - reflexivity.
Defined.

(** * The debug canvas and the scene coordinates *)

Lemma squares_draw_points (points : list FilteredPoint.t) (calls : list Call) :
  squares (flat_map Controller.draw_point points ++ calls)
  = map square points ++ squares calls.
Proof.
  induction points as [|p points IH]; [reflexivity|].
  change (squares (flat_map Controller.draw_point (p :: points) ++ calls))
    with (square p :: squares (flat_map Controller.draw_point points ++ calls)).
  now rewrite IH.
Qed.

(** X15.  When the flag is up and the debug canvas has a 2D context,
    [updateDebugCanvas] lowers the flag, clears the whole canvas first, and
    for a controller with a session fills exactly one 3 by 3 square per
    filtered point, in order, at the point's position less 1.5 both ways;
    the fill colour is cyan for an ended session and red otherwise. *)
Theorem debug_canvas_draws_each_point (view : View.t) (this : PointerEffect.t)
    (canvas : HTMLCanvasElement.t) (session : PointerSession.t) :
  View._debugCanvas view = Some canvas ->
  HTMLCanvasElement.context2d canvas = true ->
  _debugIsDirty this = true ->
  _currentSession this = Some session ->
  exists calls,
    Controller.updateDebugCanvas (view, this)
    = ((view, set_debugIsDirty false this),
       clearRect 0 0 (HTMLCanvasElement.width canvas)
                     (HTMLCanvasElement.height canvas)
       :: save
       :: fillStyle (if PointerSession.isEnded session
                     then "#00FFFF" else "#FF0000")%string
       :: calls) /\
    squares calls = map square (_filteredPoints this) /\
    Forall canvas_call calls.
Proof.
  intros Hc Hctx Hd Hs. unfold Controller.updateDebugCanvas.
  rewrite Hc, Hd, Hctx. cbn [negb _currentSession set_debugIsDirty]. rewrite Hs.
  eexists. split; [reflexivity|]. split.
  - change (squares (flat_map Controller.draw_point (_filteredPoints this)
                     ++ [restore; save; restore])
            = map square (_filteredPoints this)).
    rewrite squares_draw_points. apply app_nil_r.
  - constructor; [exact I|]. apply Forall_app. split.
    + apply draw_points_canvas_calls.
    + repeat constructor.
Qed.

Lemma debug_canvas_draws_each_point_witness :
  exists calls,
    Controller.updateDebugCanvas (fst demo, after scenario_swipe)
    = ((fst demo, set_debugIsDirty false (after scenario_swipe)),
       clearRect 0 0 800 600 :: save :: fillStyle "#00FFFF"%string :: calls) /\
    squares calls = map square (_filteredPoints (after scenario_swipe)) /\
    Forall canvas_call calls.
Proof.
  apply (debug_canvas_draws_each_point (fst demo) (after scenario_swipe)
           demo_canvas (PointerSession.mk scenario_swipe 65 true));
    reflexivity.
Defined.

Section Corner.
Implicit Types (w h : float).

Lemma ndc_left w : is_nan w = false -> (w =? 0) = false -> (0 * 2) / w - 1 = -1.
Proof.
  intros Hn Hz. apply Prim2SF_inj. rewrite sub_spec, div_spec.
  unfold is_nan in Hn. rewrite FloatAxioms.eqb_spec in Hn, Hz.
  change (Prim2SF (0 * 2)) with (S754_zero false).
  change (Prim2SF 0) with (S754_zero false) in Hz.
  destruct (Prim2SF w) as [s|s| |s m e]; try discriminate; destruct s; reflexivity.
Qed.

Lemma ndc_top h :
  is_nan h = false -> (h =? 0) = false -> ((- 1) * (0 * 2)) / h + 1 = 1.
Proof.
  intros Hn Hz. apply Prim2SF_inj. rewrite add_spec, div_spec.
  unfold is_nan in Hn. rewrite FloatAxioms.eqb_spec in Hn, Hz.
  change (Prim2SF (-1 * (0 * 2))) with (S754_zero true).
  change (Prim2SF 0) with (S754_zero false) in Hz.
  destruct (Prim2SF h) as [s|s| |s m e]; try discriminate; destruct s; reflexivity.
Qed.

End Corner.

(** X16.  A filtered point at the canvas origin (0,0) is sent to the scene
    from the top left corner (-1, 1, 0) of the clip square, whatever the
    size of the canvas, as long as neither side is [0] or [NaN]; the [z] of
    the result is [0]. *)
Theorem origin_maps_to_top_left (camera : Camera.t)
    (target : HTMLCanvasElement.t) (input : FilteredPoint.t) :
  FilteredPoint.x input = 0 ->
  FilteredPoint.y input = 0 ->
  is_nan (HTMLCanvasElement.clientWidth target) = false ->
  (HTMLCanvasElement.clientWidth target =? 0) = false ->
  is_nan (HTMLCanvasElement.clientHeight target) = false ->
  (HTMLCanvasElement.clientHeight target =? 0) = false ->
  Controller.to_scene camera target input =
  Vector3.mk (Vector3.x (Camera.unproject camera (Vector3.mk (-1) 1 0)))
             (Vector3.y (Camera.unproject camera (Vector3.mk (-1) 1 0)))
             0.
Proof.
  intros Hx Hy Hwn Hwz Hhn Hhz. unfold Controller.to_scene.
  rewrite Hx, Hy, (ndc_left _ Hwn Hwz), (ndc_top _ Hhn Hhz). reflexivity.
Qed.

Lemma origin_maps_to_top_left_witness :
  Controller.to_scene (Camera.mk (fun v => v)) demo_canvas
    (anchor_of (sample 0 0 true false))
  = Vector3.mk (-1) 1 0.
Proof.
  apply (origin_maps_to_top_left (Camera.mk (fun v => v)) demo_canvas
           (anchor_of (sample 0 0 true false)));
    reflexivity.
Defined.
